(** * The weather lookup handler of [script.js]

    The script registers one click listener.  The listener reads the
    [city] input, builds the request URL and calls [fetch]; the promise
    chain [.then(...).then(...).catch(...)] that follows renders either a
    success fragment or an error fragment into [weatherResult].

    The embedding follows the script line by line.  Synchronous code and
    promise callbacks run in a small state-and-exception monad over a
    [world] (the document plus a log of the platform calls made); what
    the network answers is an input of the model.

    Outside the model: what the platform does with the URL string it is
    handed, how the browser parses the markup assigned to [innerHTML],
    and the engine's number printing and error texts, which are
    parameters. *)

From Stdlib Require Import String Ascii List ZArith Bool Lia.
From Stdlib Require Import DecimalString.
#[local] Set Warnings "-register-all".
Import ListNotations.
Local Open Scope list_scope.
Local Open Scope string_scope.

(** ** Errors and completions *)

(** A thrown value.  Every value thrown along the chain is an [Error]
    object (an [Error] made by the script, a [TypeError] of the engine, or
    the rejection reason of [fetch] and [response.json()]); the handler
    only ever reads its [message]. *)
Record js_error := mkError { err_name : string; message : string }.

(** How a computation, or a promise, ends: with a value, or with a thrown
    value (a rejected promise).  A callback that throws rejects the promise
    derived by [then], so one type serves both. *)
Inductive completion (A : Type) : Type :=
| Normal (a : A)
| Throw (e : js_error).
Arguments Normal {A} a.
Arguments Throw {A} e.

(** The engine's own [TypeError]s that the handler can run into.  Their
    message texts differ between engines and are a parameter below. *)
Inductive nullish := IsUndefined | IsNull.

Inductive type_error :=
| CannotRead (base : nullish) (prop : string)
| CannotSet (base : nullish) (prop : string)
| CannotConvert.

(** ** The document *)

(** An element, as far as the script touches it: the [value] of a form
    control and the string last assigned to [innerHTML]. *)
Record element := mkElement { value : string; innerHTML : string }.

(** The elements that carry an id, in document order. *)
Definition document := list (string * element).

(** [document.getElementById]: the first element with that id, or null. *)
Fixpoint getElementById (d : document) (id : string) : option element :=
  match d with
  | [] => None
  | (i, el) :: rest => if String.eqb i id then Some el else getElementById rest id
  end.

(** The assignment [document.getElementById(id).innerHTML = html] on a
    document where the element exists: the first element with that id gets
    the new contents, whatever it held before.  The model keeps the
    string assigned; the elements the browser builds from that markup
    inside the element, ids included, are not part of it. *)
Fixpoint assign_innerHTML (d : document) (id html : string) : document :=
  match d with
  | [] => []
  | (i, el) :: rest =>
      if String.eqb i id
      then (i, {| value := value el; innerHTML := html |}) :: rest
      else (i, el) :: assign_innerHTML rest id html
  end.

(** The user typing [text] into the control with that id. *)
Fixpoint assign_value (d : document) (id text : string) : document :=
  match d with
  | [] => []
  | (i, el) :: rest =>
      if String.eqb i id
      then (i, {| value := text; innerHTML := innerHTML el |}) :: rest
      else (i, el) :: assign_value rest id text
  end.

(** ** Requests and the log of platform calls *)

Record request := mkRequest {
  req_method : string;
  req_url : string;
  req_headers : list (string * string);
  req_body : option string
}.

(** The second argument of [fetch], when one is given. *)
Record request_init := mkInit {
  init_method : option string;
  init_headers : list (string * string);
  init_body : option string
}.

(** The request [fetch(input, init)] makes: without [init] it is a GET
    with no headers of the caller's and no body. *)
Definition request_of (input : string) (init : option request_init) : request :=
  match init with
  | None => mkRequest "GET" input [] None
  | Some i =>
      mkRequest (match init_method i with Some m => m | None => "GET" end)
                input (init_headers i) (init_body i)
  end.

Inductive io :=
| Fetch (r : request)
| ReadJson
| SetInnerHTML (id html : string).

Record world := mkWorld { dom : document; log : list io }.

(** ** The monad of handler code *)

Definition M (A : Type) : Type := world -> completion A * world.

Definition ret {A} (a : A) : M A := fun w => (Normal a, w).

Definition throw {A} (e : js_error) : M A := fun w => (Throw e, w).

Definition bind {A B} (m : M A) (f : A -> M B) : M B :=
  fun w =>
    match m w with
    | (Normal a, w') => f a w'
    | (Throw e, w') => (Throw e, w')
    end.

Declare Scope js_scope.
Delimit Scope js_scope with js.
Notation "x <- m ;; k" := (bind m (fun x => k))
  (at level 100, m at next level, right associativity) : js_scope.
Notation "m ;;; k" := (bind m (fun _ => k))
  (at level 100, right associativity) : js_scope.
Local Open Scope js_scope.

(** [p.then(f)]: [f] runs on the value of a fulfilled [p]; a rejection
    passes by. *)
Definition then_ {A B} (p : M A) (f : A -> M B) : M B := bind p f.

(** [p.catch(h)]: [h] runs on the reason of a rejected [p]; a value
    passes by. *)
Definition catch_ {A} (p : M A) (h : js_error -> M A) : M A :=
  fun w =>
    match p w with
    | (Normal a, w') => (Normal a, w')
    | (Throw e, w') => h e w'
    end.

(** Awaiting a promise the environment settles. *)
Definition await {A} (c : completion A) : M A := fun w => (c, w).

Definition emit (e : io) : M unit :=
  fun w => (Normal tt, {| dom := dom w; log := (log w ++ [e])%list |}).

Definition lookup_element (id : string) : M (option element) :=
  fun w => (Normal (getElementById (dom w) id), w).

(** ** The literals of the script *)

Definition apiKey : string := "141623457ed8473b88b145446242110".

(** Strings are the UTF-8 bytes of the script's text; the degree sign
    (U+00B0) is the two bytes C2 B0. *)
Definition LF : string := String "010"%char "".
Definition dquote : string := String "034"%char "".
Definition degree : string := String "194"%char (String "176"%char "").
Definition indent16 : string := "                ".
Definition indent12 : string := "            ".

(** Line 4: the URL template. *)
Definition build_url (city : string) : string :=
  "https://api.weatherapi.com/v1/current.json?key=" ++ apiKey
    ++ "&q=" ++ city ++ "&aqi=no".

(** Lines 16-20: the success template, with its four substitutions
    already converted to strings. *)
Definition success_fragment (name country temperature description : string) : string :=
  LF ++ indent16 ++ "<h2>Weather in " ++ name ++ ", " ++ country ++ "</h2>"
    ++ LF ++ indent16 ++ "<p>Temperature: " ++ temperature ++ " " ++ degree ++ "C</p>"
    ++ LF ++ indent16 ++ "<p>Description: " ++ description ++ "</p>"
    ++ LF ++ indent12.

(** Line 24: the error template. *)
Definition error_fragment (msg : string) : string :=
  "<p style=" ++ dquote ++ "color: red;" ++ dquote ++ ">" ++ msg ++ "</p>".

(** The two shapes a result can have. *)
Inductive fragment : string -> Prop :=
| fragment_success : forall n c t d, fragment (success_fragment n c t d)
| fragment_error : forall m, fragment (error_fragment m).

Definition is_success_fragment (h : string) : Prop :=
  exists n c t d, h = success_fragment n c t d.

Definition is_error_fragment (h : string) : Prop :=
  exists m, h = error_fragment m.

(** [new Error(msg)], line 9. *)
Definition Error (msg : string) : js_error := mkError "Error" msg.

(** Lookup in the property list that stands for a parsed object; were a
    key listed twice, its first entry is the property the object has. *)
Fixpoint assoc {A : Type} (k : string) (l : list (string * A)) : option A :=
  match l with
  | [] => None
  | (k', a) :: rest => if String.eqb k' k then Some a else assoc k rest
  end.

(** ** The handler, over an engine *)

(** What the script takes from the engine it runs on: the number type
    with its [Number::toString], and the message text the engine gives
    each of its [TypeError]s. *)
Class Engine : Type := {
  Num : Type;
  number_to_string : Num -> string;
  type_error_message : type_error -> string
}.

Section Handler.

Context {E : Engine}.

Definition TypeError (t : type_error) : js_error :=
  mkError "TypeError" (type_error_message t).

(** What [response.json()] can produce. *)
Inductive json : Type :=
| JNull
| JBool (b : bool)
| JNum (n : Num)
| JStr (s : string)
| JArr (items : list json)
| JObj (props : list (string * json)).

(** What a property read can produce. *)
Inductive jsval : Type :=
| Undefined
| Json (j : json).

(** A response: its status, and what reading its body as JSON will
    give if the body is read. *)
Record response := mkResponse { status : Z; body_json : completion json }.

(** [response.ok]: the status is in the range 200-299. *)
Definition ok (r : response) : bool :=
  (200 <=? status r)%Z && (status r <=? 299)%Z.

(** The property [p] a parsed value has of its own: objects have the
    properties of their list, other values none of the names the script
    reads. *)
Definition own (j : json) (p : string) : option json :=
  match j with
  | JObj props => assoc p props
  | _ => None
  end.

(** The property read [v.p] for the seven names the script reads
    ([current], [condition], [text], [temp_c], [location], [name],
    [country]).  None of them is defined on a built-in prototype, so a
    value answers with its own property or with undefined; reading a
    property of undefined or null throws. *)
Definition Get (v : jsval) (p : string) : M jsval :=
  match v with
  | Undefined => throw (TypeError (CannotRead IsUndefined p))
  | Json JNull => throw (TypeError (CannotRead IsNull p))
  | Json j => ret (match own j p with Some x => Json x | None => Undefined end)
  end.

(** [ToString] of a parsed value, as a template substitution applies
    it.  An array joins its items with commas, null items giving the
    empty string; a plain object gives [[object Object]] unless a
    property of its own hides [Object.prototype.toString], in which case
    the conversion finds no primitive and throws. *)
Fixpoint json_to_string (j : json) : completion string :=
  match j with
  | JNull => Normal "null"
  | JBool true => Normal "true"
  | JBool false => Normal "false"
  | JNum n => Normal (number_to_string n)
  | JStr s => Normal s
  | JArr items =>
      (fix join (l : list json) : completion string :=
         match l with
         | [] => Normal ""
         | x :: rest =>
             match (match x with JNull => Normal "" | _ => json_to_string x end) with
             | Throw e => Throw e
             | Normal s =>
                 match rest with
                 | [] => Normal s
                 | _ :: _ =>
                     match join rest with
                     | Throw e => Throw e
                     | Normal r => Normal (s ++ "," ++ r)
                     end
                 end
             end
         end) items
  | JObj props =>
      match assoc "toString" props with
      | Some _ => Throw (TypeError CannotConvert)
      | None => Normal "[object Object]"
      end
  end.

Definition ToString (v : jsval) : M string :=
  match v with
  | Undefined => ret "undefined"
  | Json j => await (json_to_string j)
  end.

(** [document.getElementById(id).innerHTML = html]. *)
Definition set_innerHTML (id html : string) : M unit :=
  el <- lookup_element id ;;
  match el with
  | None => throw (TypeError (CannotSet IsNull "innerHTML"))
  | Some _ =>
      fun w => (Normal tt, {| dom := assign_innerHTML (dom w) id html;
                              log := (log w ++ [SetInnerHTML id html])%list |})
  end.

(** [fetch(url)], called with the URL alone. *)
Definition fetch (url : string) : M unit := emit (Fetch (request_of url None)).

(** Lines 1-6: the synchronous part of the click listener. *)
Definition getWeather_click : M jsval :=
  el <- lookup_element "city" ;;
  city <- match el with
          | None => throw (TypeError (CannotRead IsNull "value"))
          | Some e => ret (value e)
          end ;;
  let url := build_url city in
  fetch url ;;;
  ret Undefined.

(** Lines 7-12: the first [then] callback.  It returns the promise of
    [response.json()], which the promise derived by [then] follows. *)
Definition on_response (r : response) : M json :=
  if negb (ok r)
  then throw (Error "City not found")
  else emit ReadJson ;;; await (body_json r).

(** Lines 14-20: the two constants and the template of the second
    [then] callback, each substitution read and converted in turn. *)
Definition result_of (data : json) : M string :=
  current <- Get (Json data) "current" ;;
  condition <- Get current "condition" ;;
  weatherDescription <- Get condition "text" ;;
  current' <- Get (Json data) "current" ;;
  temperature <- Get current' "temp_c" ;;
  location <- Get (Json data) "location" ;;
  name <- Get location "name" ;;
  s_name <- ToString name ;;
  location' <- Get (Json data) "location" ;;
  country <- Get location' "country" ;;
  s_country <- ToString country ;;
  s_temperature <- ToString temperature ;;
  s_description <- ToString weatherDescription ;;
  ret (success_fragment s_name s_country s_temperature s_description).

(** Lines 13-22: the second [then] callback. *)
Definition on_data (data : json) : M jsval :=
  result <- result_of data ;;
  set_innerHTML "weatherResult" result ;;;
  ret Undefined.

(** Lines 23-25: the [catch] callback. *)
Definition on_error (error : js_error) : M jsval :=
  set_innerHTML "weatherResult" (error_fragment (message error)) ;;;
  ret Undefined.

(** Lines 6-25: the chain, run on what the network answers to the
    request: a response, or the rejection of [fetch]. *)
Definition chain (answer : completion response) : M jsval :=
  catch_ (then_ (then_ (await answer) on_response) on_data) on_error.

(** ** The page over time *)

(** The user edits the field and clicks, and requests settle, in any
    order.  The callbacks of a chain run one at a time between other
    events, but a chain never reads the document and writes it in one
    callback only (the second [then] or the [catch]), so a settlement is
    one step of the document, taken when that callback runs.  The chains
    do not depend on which request they belong to, so the requests in
    flight are counted. *)
Record page := mkPage { page_world : world; in_flight : nat }.

Inductive page_event :=
| Edit (text : string)
| Click
| Settle (answer : completion response).

Definition page_step (p : page) (ev : page_event) : option page :=
  match ev with
  | Edit text =>
      Some {| page_world := {| dom := assign_value (dom (page_world p)) "city" text;
                               log := log (page_world p) |};
              in_flight := in_flight p |}
  | Click =>
      match getWeather_click (page_world p) with
      | (Normal _, w) => Some {| page_world := w; in_flight := S (in_flight p) |}
      | (Throw _, w) => Some {| page_world := w; in_flight := in_flight p |}
      end
  | Settle answer =>
      match in_flight p with
      | O => None
      | S n => Some {| page_world := snd (chain answer (page_world p)); in_flight := n |}
      end
  end.

Fixpoint run_page (p : page) (evs : list page_event) : option page :=
  match evs with
  | [] => Some p
  | ev :: rest =>
      match page_step p ev with
      | None => None
      | Some p' => run_page p' rest
      end
  end.

(** What the output element shows. *)
Definition output (d : document) : option string :=
  option_map innerHTML (getElementById d "weatherResult").

Definition count_settled (evs : list page_event) : nat :=
  List.length (List.filter (fun ev => match ev with Settle _ => true | _ => false end) evs).

(** ** Summaries used to state the results *)

(** The three kinds of failure and the reason each one carries. *)
Inductive failure : completion response -> js_error -> Prop :=
| network_failure : forall e, failure (Throw e) e
| status_failure : forall r,
    ok r = false -> failure (Normal r) (Error "City not found")
| parsing_failure : forall r e,
    ok r = true -> body_json r = Throw e -> failure (Normal r) e.

(** The template of lines 14-20 evaluated on its own; it touches no
    state (see [result_of_pure]). *)
Definition pure_result (data : json) : completion string :=
  fst (result_of data {| dom := []; log := [] |}).

(** The fragment a chain renders for an answer. *)
Definition fragment_of (answer : completion response) : string :=
  match answer with
  | Throw e => error_fragment (message e)
  | Normal r =>
      if ok r then
        match body_json r with
        | Throw e => error_fragment (message e)
        | Normal data =>
            match pure_result data with
            | Throw e => error_fragment (message e)
            | Normal h => h
            end
        end
      else error_fragment "City not found"
  end.

(** The platform calls a chain makes for an answer. *)
Definition chain_log (answer : completion response) : list io :=
  ((match answer with
    | Throw _ => []
    | Normal r => if ok r then [ReadJson] else []
    end) ++ [SetInnerHTML "weatherResult" (fragment_of answer)])%list.

(** The answer of the settlement that came last in a run. *)
Fixpoint last_settled (evs : list page_event) : option (completion response) :=
  match evs with
  | [] => None
  | ev :: rest =>
      match last_settled rest with
      | Some a => Some a
      | None => match ev with Settle a => Some a | _ => None end
      end
  end.

Definition count_fetch (l : list io) : nat :=
  List.length (List.filter (fun e => match e with Fetch _ => true | _ => false end) l).

Definition count_writes (l : list io) : nat :=
  List.length (List.filter (fun e => match e with SetInnerHTML _ _ => true | _ => false end) l).

Definition count_reads (l : list io) : nat :=
  List.length (List.filter (fun e => match e with ReadJson => true | _ => false end) l).

(** A computation that leaves the world alone and does not look at it. *)
Definition pure {A} (m : M A) : Prop :=
  forall w w0, m w = (fst (m w0), w).

(** [sub] occurs in [s] as it stands. *)
Definition contains (s sub : string) : Prop :=
  exists a b, s = a ++ sub ++ b.

(** ** Further summaries, for the results beyond the claims *)

(** One substitution [${j.p}] of the template, for a [j] that is not
    null: the property read, then [ToString]. *)
Definition substitution (j : json) (p : string) : completion string :=
  match own j p with
  | Some v => json_to_string v
  | None => Normal "undefined"
  end.

(** What a leaf that is missing or holds a primitive prints as in the
    template: undefined, null, a boolean, a number or a string.  Arrays
    and objects are left out. *)
Definition leaf_text (leaf : option json) : option string :=
  match leaf with
  | None => Some "undefined"
  | Some JNull => Some "null"
  | Some (JBool true) => Some "true"
  | Some (JBool false) => Some "false"
  | Some (JNum n) => Some (number_to_string n)
  | Some (JStr s) => Some s
  | Some (JArr _) => None
  | Some (JObj _) => None
  end.

(** [ToString] of one item of an array, as [join] takes it. *)
Definition item_to_string (x : json) : completion string :=
  match x with JNull => Normal "" | _ => json_to_string x end.

(** The first read of lines 14-17 that finds undefined or null where it
    needs an object, in the order the script reads:
    [data.current.condition.text], then [data.location.name]. *)
Inductive unreadable : json -> nullish -> string -> Prop :=
| unreadable_body :
    unreadable JNull IsNull "current"
| unreadable_no_current : forall data,
    data <> JNull -> own data "current" = None ->
    unreadable data IsUndefined "condition"
| unreadable_null_current : forall data,
    own data "current" = Some JNull ->
    unreadable data IsNull "condition"
| unreadable_no_condition : forall data cur,
    own data "current" = Some cur -> cur <> JNull ->
    own cur "condition" = None ->
    unreadable data IsUndefined "text"
| unreadable_null_condition : forall data cur,
    own data "current" = Some cur ->
    own cur "condition" = Some JNull ->
    unreadable data IsNull "text"
| unreadable_no_location : forall data cur cond,
    own data "current" = Some cur ->
    own cur "condition" = Some cond -> cond <> JNull ->
    own data "location" = None ->
    unreadable data IsUndefined "name"
| unreadable_null_location : forall data cur cond,
    own data "current" = Some cur ->
    own cur "condition" = Some cond -> cond <> JNull ->
    own data "location" = Some JNull ->
    unreadable data IsNull "name".

Definition count_clicks (evs : list page_event) : nat :=
  List.length (List.filter (fun ev => match ev with Click => true | _ => false end) evs).

(** The requests of a log, in the order they were made. *)
Definition fetched (l : list io) : list request :=
  List.flat_map (fun e => match e with Fetch r => [r] | _ => [] end) l.

(** ** The page over time, with the requests told apart *)

(** As [page], but the requests in flight are kept in the order they
    were made, and a settlement names the one that settles. *)
Record tracked := mkTracked { tracked_world : world; pending : list request }.

Inductive tracked_event :=
| TEdit (text : string)
| TClick
| TSettle (i : nat) (answer : completion response).

Fixpoint remove_nth {A : Type} (i : nat) (l : list A) : list A :=
  match l, i with
  | [], _ => []
  | _ :: rest, O => rest
  | x :: rest, S j => x :: remove_nth j rest
  end.

Definition tracked_step (p : tracked) (ev : tracked_event) : option tracked :=
  match ev with
  | TEdit text =>
      Some {| tracked_world :=
                {| dom := assign_value (dom (tracked_world p)) "city" text;
                   log := log (tracked_world p) |};
              pending := pending p |}
  | TClick =>
      let w := tracked_world p in
      let w' := snd (getWeather_click w) in
      Some {| tracked_world := w';
              pending := (pending p
                          ++ fetched (skipn (List.length (log w)) (log w')))%list |}
  | TSettle i answer =>
      match nth_error (pending p) i with
      | None => None
      | Some _ =>
          Some {| tracked_world := snd (chain answer (tracked_world p));
                  pending := remove_nth i (pending p) |}
      end
  end.

Fixpoint run_tracked (p : tracked) (evs : list tracked_event) : option tracked :=
  match evs with
  | [] => Some p
  | ev :: rest =>
      match tracked_step p ev with
      | None => None
      | Some p' => run_tracked p' rest
      end
  end.

(** ** Loading the script and pressing the button *)

(** Line 1.  The script looks the button up and registers the listener
    on it.  The listener is a function expression, so every run of the
    script registers a listener of its own; a press of the button runs
    each registered listener in turn. *)
Record session := mkSession { session_page : page; listeners : nat }.

Definition script (s : session) : completion unit * session :=
  match getElementById (dom (page_world (session_page s))) "getWeather" with
  | None => (Throw (TypeError (CannotRead IsNull "addEventListener")), s)
  | Some _ =>
      (Normal tt, {| session_page := session_page s; listeners := S (listeners s) |})
  end.

Fixpoint dispatch (n : nat) (p : page) : option page :=
  match n with
  | O => Some p
  | S m =>
      match page_step p Click with
      | None => None
      | Some p' => dispatch m p'
      end
  end.

Definition press (s : session) : option session :=
  match getElementById (dom (page_world (session_page s))) "getWeather" with
  | None => None
  | Some _ =>
      option_map (fun p => {| session_page := p; listeners := listeners s |})
        (dispatch (listeners s) (session_page s))
  end.

End Handler.

(** ** A sample engine, for concrete runs *)

Module Sample.

(** Integer readings print in decimal, as [Number::toString] prints
    them. *)
Definition print_integer (z : Z) : string :=
  NilZero.string_of_int (Z.to_int z).

Definition nullish_name (b : nullish) : string :=
  match b with IsUndefined => "undefined" | IsNull => "null" end.

Definition print_type_error (t : type_error) : string :=
  match t with
  | CannotRead b p =>
      "Cannot read properties of " ++ nullish_name b ++ " (reading '" ++ p ++ "')"
  | CannotSet b p =>
      "Cannot set properties of " ++ nullish_name b ++ " (setting '" ++ p ++ "')"
  | CannotConvert => "Cannot convert object to primitive value"
  end.

#[local] Instance engine : Engine := {|
  Num := Z;
  number_to_string := print_integer;
  type_error_message := print_type_error
|}.

(** A page with the three elements of the script, the field holding
    [city] and the output element holding [shown]. *)
Definition page_with (city shown : string) : document :=
  [("city", mkElement city "");
   ("getWeather", mkElement "" "");
   ("weatherResult", mkElement "" shown)].

Definition world_with (city shown : string) : world :=
  {| dom := page_with city shown; log := [] |}.

Definition paris_location : json :=
  JObj [("name", JStr "Paris"); ("country", JStr "France")].

Definition clear : json := JObj [("text", JStr "Clear")].

Definition paris_current : json :=
  JObj [("temp_c", JNum 18%Z); ("condition", clear)].

(** The reading of the specification's example. *)
Definition paris : json :=
  JObj [("location", paris_location); ("current", paris_current)].

(** The same reading without its temperature. *)
Definition no_temperature : json :=
  JObj [("location", paris_location); ("current", JObj [("condition", clear)])].

(** A body without [current]. *)
Definition no_current : json := JObj [("location", paris_location)].

Definition found : response := mkResponse 200 (Normal paris).

Definition bad_request : response := mkResponse 400 (Normal paris).

Definition refused : js_error := mkError "TypeError" "Failed to fetch".

(** The page without its field, and without its output element. *)
Definition page_without_field : document :=
  [("getWeather", mkElement "" ""); ("weatherResult", mkElement "" "old")].

Definition page_without_output : document :=
  [("city", mkElement "Paris" ""); ("getWeather", mkElement "" "")].

(** A body whose [current] is null. *)
Definition null_current : json :=
  JObj [("location", paris_location); ("current", JNull)].

End Sample.

Section Facts.

Context {E : Engine}.

(** ** Facts about strings *)

Lemma length_append (a b : string) :
  String.length (a ++ b) = String.length a + String.length b.
Proof.
  induction a as [|c a IH]; simpl; [reflexivity | now rewrite IH].
Qed.

Lemma append_inv_head (s a b : string) : s ++ a = s ++ b -> a = b.
Proof.
  induction s as [|c s IH]; simpl; intros H; [exact H|].
  injection H as H. now apply IH.
Qed.

Lemma append_inv_tail (s a b : string) : a ++ s = b ++ s -> a = b.
Proof.
  revert b. induction a as [|c a IH]; intros [|c' b] H; simpl in H.
  - reflexivity.
  - apply (f_equal String.length) in H. simpl in H.
    rewrite length_append in H. lia.
  - apply (f_equal String.length) in H. simpl in H.
    rewrite length_append in H. lia.
  - injection H as Hc H. subst c'. f_equal. now apply IH.
Qed.

Lemma append_assoc (a b c : string) : (a ++ b) ++ c = a ++ b ++ c.
Proof.
  induction a as [|x a IH]; simpl; [reflexivity | now rewrite IH].
Qed.

Lemma build_url_inj (q1 q2 : string) : build_url q1 = build_url q2 -> q1 = q2.
Proof.
  unfold build_url. intros H.
  do 2 apply append_inv_head in H.
  apply append_inv_head in H.
  now apply append_inv_tail in H.
Qed.

Lemma success_is_not_error (n c t d m : string) :
  success_fragment n c t d <> error_fragment m.
Proof. unfold success_fragment, error_fragment. simpl. discriminate. Qed.

Lemma fragment_one_shape (h : string) :
  fragment h -> ~ (is_success_fragment h /\ is_error_fragment h).
Proof.
  intros _ [[n [c [t [d Hs]]]] [m He]].
  apply (success_is_not_error n c t d m). congruence.
Qed.

(** ** Facts about the document *)

Lemma getElementById_assign_same (d : document) (id html : string) (el : element) :
  getElementById d id = Some el ->
  getElementById (assign_innerHTML d id html) id
  = Some {| value := value el; innerHTML := html |}.
Proof.
  induction d as [|[i e] d IH]; simpl; [discriminate|].
  destruct (String.eqb_spec i id) as [->|Hne]; intros H; simpl.
  - rewrite String.eqb_refl. now injection H as ->.
  - destruct (String.eqb_spec i id) as [Heq|_]; [contradiction | now apply IH].
Qed.

Lemma getElementById_assign_other (d : document) (id id' html : string) :
  id' <> id ->
  getElementById (assign_innerHTML d id html) id' = getElementById d id'.
Proof.
  intros Hne. induction d as [|[i e] d IH]; simpl; [reflexivity|].
  destruct (String.eqb_spec i id) as [->|Hi]; simpl.
  - destruct (String.eqb_spec id id') as [Heq|_]; [congruence | reflexivity].
  - destruct (String.eqb_spec i id'); [reflexivity | exact IH].
Qed.

Lemma getElementById_assign_value_same (d : document) (id text : string) (el : element) :
  getElementById d id = Some el ->
  getElementById (assign_value d id text) id
  = Some {| value := text; innerHTML := innerHTML el |}.
Proof.
  induction d as [|[i e] d IH]; simpl; [discriminate|].
  destruct (String.eqb_spec i id) as [->|Hne]; intros H; simpl.
  - rewrite String.eqb_refl. now injection H as ->.
  - destruct (String.eqb_spec i id) as [Heq|_]; [contradiction | now apply IH].
Qed.

Lemma getElementById_assign_value_other (d : document) (id id' text : string) :
  id' <> id ->
  getElementById (assign_value d id text) id' = getElementById d id'.
Proof.
  intros Hne. induction d as [|[i e] d IH]; simpl; [reflexivity|].
  destruct (String.eqb_spec i id) as [->|Hi]; simpl.
  - destruct (String.eqb_spec id id') as [Heq|_]; [congruence | reflexivity].
  - destruct (String.eqb_spec i id'); [reflexivity | exact IH].
Qed.

Lemma output_assign (d : document) (html : string) (el : element) :
  getElementById d "weatherResult" = Some el ->
  output (assign_innerHTML d "weatherResult" html) = Some html.
Proof.
  intros H. unfold output.
  now rewrite (getElementById_assign_same d "weatherResult" html el H).
Qed.

(** ** Facts about the monad *)

Lemma pure_ret {A} (a : A) : pure (ret a).
Proof. intros w w0. reflexivity. Qed.

Lemma pure_throw {A} (e : js_error) : pure (@throw A e).
Proof. intros w w0. reflexivity. Qed.

Lemma pure_await {A} (c : completion A) : pure (await c).
Proof. intros w w0. reflexivity. Qed.

Lemma pure_bind {A B} (m : M A) (f : A -> M B) :
  pure m -> (forall a, pure (f a)) -> pure (bind m f).
Proof.
  intros Hm Hf w w0. unfold bind.
  pose proof (Hm w0 w0) as H0. pose proof (Hm w w0) as Hw.
  destruct (m w0) as [c w1]. simpl in H0, Hw.
  injection H0 as ->. rewrite Hw.
  destruct c as [a|e]; [apply Hf | reflexivity].
Qed.

Lemma Get_pure (v : jsval) (p : string) : pure (Get v p).
Proof.
  destruct v as [|[]]; simpl; first [apply pure_throw | apply pure_ret].
Qed.

Lemma ToString_pure (v : jsval) : pure (ToString v).
Proof. destruct v; simpl; [apply pure_ret | apply pure_await]. Qed.

Lemma result_of_pure (data : json) : pure (result_of data).
Proof.
  unfold result_of.
  repeat first
    [ apply pure_ret
    | apply pure_bind; [first [apply Get_pure | apply ToString_pure] | intros ?] ].
Qed.

Lemma result_of_run (data : json) (w : world) :
  result_of data w = (pure_result data, w).
Proof. apply result_of_pure. Qed.

(** ** What each part of the handler does to the world *)

Lemma set_innerHTML_run (id html : string) (w : world) (el : element) :
  getElementById (dom w) id = Some el ->
  set_innerHTML id html w
  = (Normal tt, {| dom := assign_innerHTML (dom w) id html;
                   log := (log w ++ [SetInnerHTML id html])%list |}).
Proof.
  intros H. unfold set_innerHTML, bind, lookup_element. now rewrite H.
Qed.

Lemma set_innerHTML_absent (id html : string) (w : world) :
  getElementById (dom w) id = None ->
  set_innerHTML id html w = (Throw (TypeError (CannotSet IsNull "innerHTML")), w).
Proof.
  intros H. unfold set_innerHTML, bind, lookup_element. now rewrite H.
Qed.

Lemma on_error_run (e : js_error) (w : world) (el : element) :
  getElementById (dom w) "weatherResult" = Some el ->
  on_error e w
  = (Normal Undefined,
     {| dom := assign_innerHTML (dom w) "weatherResult" (error_fragment (message e));
        log := (log w ++ [SetInnerHTML "weatherResult" (error_fragment (message e))])%list |}).
Proof.
  intros H. unfold on_error, bind.
  now rewrite (set_innerHTML_run _ _ _ el H).
Qed.

Lemma on_data_run (data : json) (w : world) (el : element) :
  getElementById (dom w) "weatherResult" = Some el ->
  on_data data w
  = match pure_result data with
    | Normal h =>
        (Normal Undefined,
         {| dom := assign_innerHTML (dom w) "weatherResult" h;
            log := (log w ++ [SetInnerHTML "weatherResult" h])%list |})
    | Throw e => (Throw e, w)
    end.
Proof.
  intros H. unfold on_data, bind. rewrite result_of_run.
  destruct (pure_result data) as [h|e]; [|reflexivity].
  now rewrite (set_innerHTML_run _ _ _ el H).
Qed.

Lemma on_response_ok (r : response) (w : world) :
  ok r = true ->
  on_response r w
  = (body_json r, {| dom := dom w; log := (log w ++ [ReadJson])%list |}).
Proof. intros H. unfold on_response. rewrite H. reflexivity. Qed.

Lemma on_response_not_ok (r : response) (w : world) :
  ok r = false ->
  on_response r w = (Throw (Error "City not found"), w).
Proof. intros H. unfold on_response. rewrite H. reflexivity. Qed.

(** A settled chain has written the fragment of its answer, once, and
    has thrown nothing. *)
Lemma chain_run (answer : completion response) (w : world) (el : element) :
  getElementById (dom w) "weatherResult" = Some el ->
  chain answer w
  = (Normal Undefined,
     {| dom := assign_innerHTML (dom w) "weatherResult" (fragment_of answer);
        log := (log w ++ chain_log answer)%list |}).
Proof.
  intros H. unfold chain, catch_, then_, bind, await, chain_log, fragment_of.
  destruct answer as [r|e].
  - destruct (ok r) eqn:Hok.
    + rewrite (on_response_ok r w Hok).
      destruct (body_json r) as [data|e].
      * rewrite (on_data_run data _ el) by exact H.
        destruct (pure_result data) as [h|e]; simpl dom; simpl log.
        -- now rewrite <- app_assoc.
        -- rewrite (on_error_run e _ el) by exact H. simpl.
           now rewrite <- app_assoc.
      * rewrite (on_error_run e _ el) by exact H. simpl.
        now rewrite <- app_assoc.
    + rewrite (on_response_not_ok r w Hok).
      now rewrite (on_error_run _ w el H).
  - now rewrite (on_error_run e w el H).
Qed.

(** Without the output element both writing callbacks throw, and the
    chain ends rejected: the results below need the element. *)
Lemma chain_absent (answer : completion response) (w : world) :
  getElementById (dom w) "weatherResult" = None ->
  fst (chain answer w) = Throw (TypeError (CannotSet IsNull "innerHTML"))
  /\ dom (snd (chain answer w)) = dom w.
Proof.
  intros H.
  assert (Herr : forall e w1, dom w1 = dom w ->
            on_error e w1 = (Throw (TypeError (CannotSet IsNull "innerHTML")), w1)).
  { intros e w1 Hw1. unfold on_error, bind.
    rewrite set_innerHTML_absent; [reflexivity | now rewrite Hw1]. }
  unfold chain, catch_, then_, bind, await.
  destruct answer as [r|e]; [|now rewrite Herr].
  destruct (ok r) eqn:Hok.
  - rewrite (on_response_ok r w Hok).
    destruct (body_json r) as [data|e]; [|now rewrite Herr].
    unfold on_data, bind. rewrite result_of_run.
    destruct (pure_result data) as [h|e]; [|now rewrite Herr].
    rewrite set_innerHTML_absent by exact H. now rewrite Herr.
  - rewrite (on_response_not_ok r w Hok). now rewrite Herr.
Qed.

Lemma click_run (w : world) (c : element) :
  getElementById (dom w) "city" = Some c ->
  getWeather_click w
  = (Normal Undefined,
     {| dom := dom w;
        log := (log w ++ [Fetch (request_of (build_url (value c)) None)])%list |}).
Proof.
  intros H. unfold getWeather_click, bind, lookup_element. now rewrite H.
Qed.

Lemma click_absent (w : world) :
  getElementById (dom w) "city" = None ->
  getWeather_click w = (Throw (TypeError (CannotRead IsNull "value")), w).
Proof.
  intros H. unfold getWeather_click, bind, lookup_element. now rewrite H.
Qed.

Lemma Get_own (j x : json) (p : string) (w : world) :
  own j p = Some x -> Get (Json j) p w = (Normal (Json x), w).
Proof.
  intros H. destruct j; simpl in H; try discriminate.
  unfold Get, own. now rewrite H.
Qed.

(** The template on a body that has the four fields, whatever values
    they hold: each value is converted, in the order name, country,
    temperature, description. *)
Lemma pure_result_fields (data loc cur cond vn vc vt vd : json) :
  own data "location" = Some loc ->
  own loc "name" = Some vn ->
  own loc "country" = Some vc ->
  own data "current" = Some cur ->
  own cur "temp_c" = Some vt ->
  own cur "condition" = Some cond ->
  own cond "text" = Some vd ->
  pure_result data
  = match json_to_string vn with
    | Throw e => Throw e
    | Normal sn =>
        match json_to_string vc with
        | Throw e => Throw e
        | Normal sc =>
            match json_to_string vt with
            | Throw e => Throw e
            | Normal st =>
                match json_to_string vd with
                | Throw e => Throw e
                | Normal sd => Normal (success_fragment sn sc st sd)
                end
            end
        end
    end.
Proof.
  intros Hloc Hn Hc Hcur Ht Hcond Hd.
  unfold pure_result, result_of, bind.
  rewrite (Get_own _ _ _ _ Hcur), (Get_own _ _ _ _ Hcond), (Get_own _ _ _ _ Hd).
  rewrite (Get_own _ _ _ _ Hcur), (Get_own _ _ _ _ Ht).
  rewrite (Get_own _ _ _ _ Hloc), (Get_own _ _ _ _ Hn).
  unfold ToString at 1. unfold await at 1.
  destruct (json_to_string vn) as [sn|e]; [|reflexivity].
  rewrite (Get_own _ _ _ _ Hloc), (Get_own _ _ _ _ Hc).
  unfold ToString, await.
  destruct (json_to_string vc) as [sc|e]; [|reflexivity].
  destruct (json_to_string vt) as [st|e]; [|reflexivity].
  destruct (json_to_string vd) as [sd|e]; reflexivity.
Qed.

Ltac string_norm := repeat first [rewrite append_assoc | progress simpl].

Lemma success_fragment_contains (name country temperature description : string) :
  contains (success_fragment name country temperature description)
    ("<h2>Weather in " ++ name ++ ", " ++ country ++ "</h2>")
  /\ contains (success_fragment name country temperature description)
       ("<p>Temperature: " ++ temperature ++ " " ++ degree ++ "C</p>")
  /\ contains (success_fragment name country temperature description)
       ("<p>Description: " ++ description ++ "</p>").
Proof.
  unfold success_fragment, contains. repeat split.
  - exists (LF ++ indent16).
    exists (LF ++ indent16 ++ "<p>Temperature: " ++ temperature ++ " "
               ++ degree ++ "C</p>" ++ LF ++ indent16 ++ "<p>Description: "
               ++ description ++ "</p>" ++ LF ++ indent12).
    now string_norm.
  - exists (LF ++ indent16 ++ "<h2>Weather in " ++ name ++ ", " ++ country
               ++ "</h2>" ++ LF ++ indent16).
    exists (LF ++ indent16 ++ "<p>Description: " ++ description ++ "</p>"
               ++ LF ++ indent12).
    now string_norm.
  - exists (LF ++ indent16 ++ "<h2>Weather in " ++ name ++ ", " ++ country
               ++ "</h2>" ++ LF ++ indent16 ++ "<p>Temperature: "
               ++ temperature ++ " " ++ degree ++ "C</p>" ++ LF ++ indent16).
    exists (LF ++ indent12).
    now string_norm.
Qed.

(** ** Counting platform calls *)

Lemma count_fetch_app (l1 l2 : list io) :
  count_fetch (l1 ++ l2) = count_fetch l1 + count_fetch l2.
Proof. unfold count_fetch. now rewrite filter_app, length_app. Qed.

Lemma count_writes_app (l1 l2 : list io) :
  count_writes (l1 ++ l2) = count_writes l1 + count_writes l2.
Proof. unfold count_writes. now rewrite filter_app, length_app. Qed.

Lemma count_fetch_chain_log (answer : completion response) :
  count_fetch (chain_log answer) = 0.
Proof. unfold chain_log. destruct answer as [r|e]; [destruct (ok r)|]; reflexivity. Qed.

Lemma count_writes_chain_log (answer : completion response) :
  count_writes (chain_log answer) = 1.
Proof. unfold chain_log. destruct answer as [r|e]; [destruct (ok r)|]; reflexivity. Qed.

(** ** The shape of what a chain renders *)

Lemma pure_result_success (data : json) (h : string) :
  pure_result data = Normal h -> is_success_fragment h.
Proof.
  unfold pure_result, result_of, bind.
  repeat match goal with
         | |- context [match ?m ?w with pair _ _ => _ end] =>
             destruct (m w) as [[?|?] ?]; [|discriminate]
         end.
  simpl. intros H. injection H as <-. unfold is_success_fragment. eauto.
Qed.

Lemma fragment_of_fragment (answer : completion response) :
  fragment (fragment_of answer).
Proof.
  unfold fragment_of.
  destruct answer as [r|e]; [|constructor].
  destruct (ok r); [|constructor].
  destruct (body_json r) as [data|e]; [|constructor].
  destruct (pure_result data) as [h|e] eqn:Hres; [|constructor].
  destruct (pure_result_success data h Hres) as [n [c [t [d ->]]]]. constructor.
Qed.

(** ** Steps of the page *)

Lemma click_dom (w : world) : dom (snd (getWeather_click w)) = dom w.
Proof.
  destruct (getElementById (dom w) "city") as [c|] eqn:Hcity.
  - now rewrite (click_run w c Hcity).
  - now rewrite (click_absent w Hcity).
Qed.

Lemma click_writes (w : world) :
  count_writes (log (snd (getWeather_click w))) = count_writes (log w).
Proof.
  destruct (getElementById (dom w) "city") as [c|] eqn:Hcity.
  - rewrite (click_run w c Hcity). simpl. rewrite count_writes_app.
    unfold count_writes. simpl. lia.
  - now rewrite (click_absent w Hcity).
Qed.

Lemma page_step_output (p p' : page) (ev : page_event) (el : element) :
  getElementById (dom (page_world p)) "weatherResult" = Some el ->
  page_step p ev = Some p' ->
  (exists el',
      getElementById (dom (page_world p')) "weatherResult" = Some el' /\
      innerHTML el' = match ev with
                      | Settle a => fragment_of a
                      | _ => innerHTML el
                      end)
  /\ count_writes (log (page_world p'))
     = count_writes (log (page_world p))
       + match ev with Settle _ => 1 | _ => 0 end.
Proof.
  intros Hout Hstep. destruct ev as [text| |a]; simpl in Hstep.
  - injection Hstep as <-. simpl. split; [|lia].
    exists el. split; [|reflexivity].
    rewrite getElementById_assign_value_other by discriminate. exact Hout.
  - pose proof (click_dom (page_world p)) as Hdom.
    pose proof (click_writes (page_world p)) as Hw.
    destruct (getWeather_click (page_world p)) as [[v|e] w1];
      injection Hstep as <-; simpl in *; rewrite Hdom, Hw;
      (split; [exists el; split; [exact Hout | reflexivity] | lia]).
  - destruct (in_flight p) as [|n]; [discriminate|].
    injection Hstep as <-. simpl.
    rewrite (chain_run a _ el Hout). simpl. split.
    + eexists. split; [apply (getElementById_assign_same _ _ _ el Hout)|]. reflexivity.
    + rewrite count_writes_app, count_writes_chain_log. reflexivity.
Qed.

Lemma run_page_output (evs : list page_event) :
  forall (p p' : page) (el : element),
    getElementById (dom (page_world p)) "weatherResult" = Some el ->
    run_page p evs = Some p' ->
    output (dom (page_world p'))
    = Some (match last_settled evs with
            | Some a => fragment_of a
            | None => innerHTML el
            end)
    /\ count_writes (log (page_world p'))
       = count_writes (log (page_world p)) + count_settled evs.
Proof.
  induction evs as [|ev rest IH]; intros p p' el Hout Hrun; simpl in Hrun.
  - injection Hrun as <-. unfold output. rewrite Hout. simpl.
    unfold count_settled. simpl. split; [reflexivity | lia].
  - destruct (page_step p ev) as [p1|] eqn:Hstep; [|discriminate].
    destruct (page_step_output p p1 ev el Hout Hstep) as [[el1 [Hout1 Hinner]] Hcount].
    destruct (IH p1 p' el1 Hout1 Hrun) as [Hshow Hwrites].
    split.
    + rewrite Hshow. simpl.
      destruct (last_settled rest) as [a|]; [reflexivity|].
      rewrite Hinner. now destruct ev.
    + rewrite Hwrites, Hcount. unfold count_settled. simpl.
      destruct ev; simpl; lia.
Qed.

(** ** Bodies that lack an object the template reads through *)

Lemma pure_result_missing_object (data : json) :
  (own data "current" = None \/
   (exists cur, own data "current" = Some cur /\ own cur "condition" = None) \/
   own data "location" = None) ->
  exists base prop, pure_result data = Throw (TypeError (CannotRead base prop)).
Proof.
  intros H. unfold pure_result, result_of, bind.
  destruct data as [| b | n | s | items | props];
    try (simpl; eauto; fail).
  simpl own in H. unfold Get at 1. unfold own at 1. unfold ret at 1.
  destruct (assoc "current" props) as [cur|] eqn:Hcur; [|simpl; eauto].
  destruct cur as [| b | n | s | items | props2];
    try (simpl; eauto; fail).
  unfold Get at 1. unfold own at 1. unfold ret at 1.
  destruct (assoc "condition" props2) as [cond|] eqn:Hcond; [|simpl; eauto].
  assert (Hloc : assoc "location" props = None).
  { destruct H as [H | [[cur [Hc Hn]] | H]]; [discriminate | | exact H].
    injection Hc as <-. simpl in Hn. congruence. }
  destruct cond; simpl; rewrite ?Hcur, ?Hloc; simpl; eauto.
Qed.

(** ** Failures on their way to the [catch] callback *)

(** Every failure reaches the [catch] callback with its reason: the
    chain is the callback run on that reason, on the document the
    settlement found. *)
Lemma failure_runs_on_error
    (w : world) (answer : completion response) (e : js_error) :
  failure answer e ->
  fragment_of answer = error_fragment (message e) /\
  exists w1, dom w1 = dom w /\ chain answer w = on_error e w1.
Proof.
  intros Hfail.
  unfold chain, catch_, then_, bind, await, fragment_of.
  destruct Hfail as [e | r Hok | r e Hok Hbody].
  - split; [reflexivity|]. exists w. split; reflexivity.
  - rewrite Hok. split; [reflexivity|].
    rewrite on_response_not_ok by exact Hok.
    exists w. split; reflexivity.
  - rewrite Hok, Hbody. split; [reflexivity|].
    rewrite on_response_ok by exact Hok. rewrite Hbody.
    eexists. split; [|reflexivity]. reflexivity.
Qed.

(** ** The results *)

(** Each result about a settlement is stated for the chain run in an
    arbitrary world: the one the page is in when the request settles,
    whatever happened since the click. *)

(** C1. When the status is a success and the body parses to a reading
    (an object whose [location.name], [location.country] and
    [current.condition.text] are strings and whose [current.temp_c] is a
    number), the chain reads the body and assigns to the output element
    the success fragment: the heading "Weather in name, country" and the
    lines "Temperature: temp °C" and "Description: description", holding
    the strings of the response as they are and the number as the engine
    prints it. *)
Theorem success_path_renders_reading
    (w : world) (el : element) (r : response)
    (data loc cur cond : json) (name country desc : string) (t : Num) :
  getElementById (dom w) "weatherResult" = Some el ->
  ok r = true ->
  body_json r = Normal data ->
  own data "location" = Some loc ->
  own loc "name" = Some (JStr name) ->
  own loc "country" = Some (JStr country) ->
  own data "current" = Some cur ->
  own cur "temp_c" = Some (JNum t) ->
  own cur "condition" = Some cond ->
  own cond "text" = Some (JStr desc) ->
  let html := success_fragment name country (number_to_string t) desc in
  chain (Normal r) w
  = (Normal Undefined,
     {| dom := assign_innerHTML (dom w) "weatherResult" html;
        log := (log w ++ [ReadJson; SetInnerHTML "weatherResult" html])%list |})
  /\ output (dom (snd (chain (Normal r) w))) = Some html
  /\ contains html ("<h2>Weather in " ++ name ++ ", " ++ country ++ "</h2>")
  /\ contains html ("<p>Temperature: " ++ number_to_string t ++ " " ++ degree ++ "C</p>")
  /\ contains html ("<p>Description: " ++ desc ++ "</p>").
Proof.
  intros Hout Hok Hbody Hloc Hn Hc Hcur Ht Hcond Hd html.
  assert (Hfrag : fragment_of (Normal r) = html).
  { unfold fragment_of. rewrite Hok, Hbody.
    now rewrite (pure_result_fields data loc cur cond _ _ _ _ Hloc Hn Hc Hcur Ht Hcond Hd). }
  assert (Hrun := chain_run (Normal r) w el Hout).
  unfold chain_log in Hrun. rewrite Hok, Hfrag in Hrun.
  split; [exact Hrun|]. split.
  { rewrite Hrun. simpl. now apply (output_assign _ _ el). }
  apply success_fragment_contains.
Qed.

(** C2. When the transport completes and the status is not a success,
    the chain assigns to the output element exactly the error fragment
    with the text "City not found"; the body is never read (the log
    gains no [ReadJson]) and the result is the same whatever the status
    and the body are. *)
Theorem status_failure_renders_city_not_found
    (w : world) (el : element) (r : response) :
  getElementById (dom w) "weatherResult" = Some el ->
  ok r = false ->
  chain (Normal r) w
  = (Normal Undefined,
     {| dom := assign_innerHTML (dom w) "weatherResult"
                 (error_fragment "City not found");
        log := (log w ++ [SetInnerHTML "weatherResult"
                            (error_fragment "City not found")])%list |})
  /\ output (dom (snd (chain (Normal r) w)))
     = Some ("<p style=" ++ dquote ++ "color: red;" ++ dquote ++ ">City not found</p>")
  /\ count_reads (log (snd (chain (Normal r) w))) = count_reads (log w).
Proof.
  intros Hout Hok.
  assert (Hrun := chain_run (Normal r) w el Hout).
  unfold chain_log, fragment_of in Hrun. rewrite Hok in Hrun.
  split; [exact Hrun|]. rewrite Hrun. simpl. split.
  - now rewrite (output_assign _ _ el Hout).
  - unfold count_reads. rewrite filter_app. simpl.
    rewrite app_nil_r. reflexivity.
Qed.

(** C3. When [fetch] itself rejects, or the body of a successful
    response fails to parse, the chain assigns to the output element the
    error fragment holding the failure's message as it is; it gets there
    through the [catch] callback, the same one a failing status reaches
    with its own reason. *)
Theorem transport_or_parsing_failure_renders_message
    (w : world) (el : element) (answer : completion response) (e : js_error) :
  getElementById (dom w) "weatherResult" = Some el ->
  (answer = Throw e \/
   exists r, answer = Normal r /\ ok r = true /\ body_json r = Throw e) ->
  output (dom (snd (chain answer w)))
  = Some ("<p style=" ++ dquote ++ "color: red;" ++ dquote ++ ">" ++ message e ++ "</p>")
  /\ (exists w1, dom w1 = dom w /\ chain answer w = on_error e w1)
  /\ (forall r', ok r' = false ->
        exists w2, dom w2 = dom w /\
          chain (Normal r') w = on_error (Error "City not found") w2).
Proof.
  intros Hout Hkind.
  assert (Hfail : failure answer e).
  { destruct Hkind as [-> | [r [-> [Hok Hbody]]]]; now constructor. }
  destruct (failure_runs_on_error w answer e Hfail) as [Hfrag Hpath].
  repeat split.
  - rewrite (chain_run answer w el Hout). simpl.
    rewrite (output_assign _ _ el Hout), Hfrag. reflexivity.
  - exact Hpath.
  - intros r' Hok'.
    apply (failure_runs_on_error w (Normal r') _). now constructor.
Qed.

(** C4. The click calls [fetch] with the URL alone, so the request is a
    GET with no body and no headers of the script's; the URL is
    [https://api.weatherapi.com/v1/current.json] followed by the query
    [key=] the fixed credential, [&q=] the field's text as it stands and
    [&aqi=no]. *)
Theorem request_is_plain_get (w : world) (c : element) :
  getElementById (dom w) "city" = Some c ->
  getWeather_click w
  = (Normal Undefined,
     {| dom := dom w;
        log := (log w ++
                [Fetch {| req_method := "GET";
                          req_url := "https://api.weatherapi.com/v1/current.json"
                                       ++ "?key=" ++ "141623457ed8473b88b145446242110"
                                       ++ "&q=" ++ value c
                                       ++ "&aqi=no";
                          req_headers := [];
                          req_body := None |}])%list |}).
Proof.
  intros Hcity. rewrite (click_run w c Hcity). reflexivity.
Qed.

(** C5. Along any run of edits, clicks and settlements, each settled
    request writes the output element exactly once, what it writes is a
    fragment of exactly one of the two shapes, and the element then holds
    that fragment alone: after the run it shows the fragment of the
    settlement that came last (or what it showed at the start, when none
    came), never two results joined. *)
Theorem one_fragment_replaces_previous
    (p p' : page) (evs : list page_event) (el : element) :
  getElementById (dom (page_world p)) "weatherResult" = Some el ->
  run_page p evs = Some p' ->
  output (dom (page_world p'))
  = Some (match last_settled evs with
          | Some a => fragment_of a
          | None => innerHTML el
          end)
  /\ count_writes (log (page_world p'))
     = count_writes (log (page_world p)) + count_settled evs
  /\ (forall a, fragment (fragment_of a) /\
                ~ (is_success_fragment (fragment_of a) /\
                   is_error_fragment (fragment_of a))).
Proof.
  intros Hout Hrun.
  destruct (run_page_output evs p p' el Hout Hrun) as [Hshow Hwrites].
  repeat split; [exact Hshow | exact Hwrites | apply fragment_of_fragment |].
  apply fragment_one_shape, fragment_of_fragment.
Qed.

(** C6. The query is the text the [city] field holds when the click
    runs, and it goes into the URL unchanged: the URL is a fixed prefix,
    the text, and a fixed suffix, whatever the text is (empty, blank or
    malformed); two clicks that produce the same URL found the same text;
    and whatever the field held before, typing a text and clicking sends
    that text. *)
Theorem query_is_field_value_verbatim (w : world) (c : element) :
  getElementById (dom w) "city" = Some c ->
  (exists rq,
      log (snd (getWeather_click w)) = (log w ++ [Fetch rq])%list /\
      req_url rq
      = "https://api.weatherapi.com/v1/current.json?key=141623457ed8473b88b145446242110&q="
          ++ value c ++ "&aqi=no")
  /\ (forall w' c' rq rq',
        getElementById (dom w') "city" = Some c' ->
        log (snd (getWeather_click w)) = (log w ++ [Fetch rq])%list ->
        log (snd (getWeather_click w')) = (log w' ++ [Fetch rq'])%list ->
        req_url rq = req_url rq' ->
        value c' = value c)
  /\ (forall (n : nat) (q : string),
        exists p' rq,
          run_page {| page_world := w; in_flight := n |} [Edit q; Click] = Some p' /\
          log (page_world p') = (log w ++ [Fetch rq])%list /\
          req_url rq
          = "https://api.weatherapi.com/v1/current.json?key=141623457ed8473b88b145446242110&q="
              ++ q ++ "&aqi=no").
Proof.
  intros Hcity. split; [|split].
  - rewrite (click_run w c Hcity). simpl. eexists. split; reflexivity.
  - intros w' c' rq rq' Hcity' Hrq Hrq' Hurl.
    rewrite (click_run w c Hcity) in Hrq. rewrite (click_run w' c' Hcity') in Hrq'.
    simpl in Hrq, Hrq'.
    apply app_inv_head in Hrq. apply app_inv_head in Hrq'.
    injection Hrq as <-. injection Hrq' as <-. simpl req_url in Hurl.
    symmetry. now apply build_url_inj.
  - intros n q. cbn [run_page page_step page_world in_flight].
    pose proof (getElementById_assign_value_same (dom w) "city" q c Hcity) as Hq.
    rewrite (click_run {| dom := assign_value (dom w) "city" q; log := log w |}
               {| value := q; innerHTML := innerHTML c |} Hq).
    eexists. eexists. split; [reflexivity|]. split; reflexivity.
Qed.

(** C7. A failing status, a rejected [fetch] and a body that fails to
    parse all end in the [catch] callback: the listener and the chain
    both complete normally (nothing is thrown again, nothing leaves the
    handler), the output element holds the error fragment of the
    failure's message, the click called [fetch] exactly once and the
    chain never calls it again, and the output is written exactly
    once. *)
Theorem failures_caught_not_rethrown_not_retried
    (w w' : world) (c el : element) (answer : completion response) (e : js_error) :
  getElementById (dom w) "city" = Some c ->
  getElementById (dom w') "weatherResult" = Some el ->
  failure answer e ->
  fst (getWeather_click w) = Normal Undefined
  /\ count_fetch (log (snd (getWeather_click w))) = S (count_fetch (log w))
  /\ fst (chain answer w') = Normal Undefined
  /\ output (dom (snd (chain answer w'))) = Some (error_fragment (message e))
  /\ count_fetch (log (snd (chain answer w'))) = count_fetch (log w')
  /\ count_writes (log (snd (chain answer w'))) = S (count_writes (log w')).
Proof.
  intros Hcity Hout Hfail.
  destruct (failure_runs_on_error w' answer e Hfail) as [Hfrag _].
  rewrite (click_run w c Hcity).
  rewrite (chain_run answer w' el Hout). cbn [fst snd dom log].
  repeat split.
  - rewrite count_fetch_app. unfold count_fetch at 2. simpl. lia.
  - rewrite (output_assign _ _ el Hout). now rewrite Hfrag.
  - rewrite count_fetch_app, count_fetch_chain_log. lia.
  - rewrite count_writes_app, count_writes_chain_log. lia.
Qed.

(** C8. The listener returns undefined, and so does the settled chain.
    The click writes nothing: it leaves the document as it was and only
    calls [fetch].  The chain makes one write and no other: the
    assignment of the fragment to [innerHTML] of the output element,
    after at most the reading of the body; the document after it is the
    document before with that one assignment made.  Nothing is assigned
    to the field or to any other element. *)
Theorem only_output_element_changes
    (w w' : world) (c el : element) (answer : completion response) :
  getElementById (dom w) "city" = Some c ->
  getElementById (dom w') "weatherResult" = Some el ->
  getWeather_click w
  = (Normal Undefined,
     {| dom := dom w;
        log := (log w ++ [Fetch (request_of (build_url (value c)) None)])%list |})
  /\ fst (chain answer w') = Normal Undefined
  /\ dom (snd (chain answer w'))
     = assign_innerHTML (dom w') "weatherResult" (fragment_of answer)
  /\ (exists reads,
        (reads = [] \/ reads = [ReadJson]) /\
        log (snd (chain answer w'))
        = (log w' ++ reads
             ++ [SetInnerHTML "weatherResult" (fragment_of answer)])%list)
  /\ count_writes (log (snd (getWeather_click w))) = count_writes (log w)
  /\ count_writes (log (snd (chain answer w'))) = S (count_writes (log w')).
Proof.
  intros Hcity Hout.
  rewrite (click_run w c Hcity).
  rewrite (chain_run answer w' el Hout). cbn [fst snd dom log].
  repeat split.
  - unfold chain_log. destruct answer as [r|e]; [destruct (ok r)|].
    + exists [ReadJson]. split; [now right | reflexivity].
    + exists []. split; [now left | reflexivity].
    + exists []. split; [now left | reflexivity].
  - rewrite count_writes_app. unfold count_writes at 2. simpl. lia.
  - rewrite count_writes_app, count_writes_chain_log. lia.
Qed.

(** C9, as the code has it.  When the status is a success and the body
    parses but has no [current], no [condition] inside [current], or no
    [location], reading through the missing object throws the engine's
    [TypeError]; the [catch] callback receives it, the chain settles
    normally, and the output element holds the error fragment of that
    error's message and no success fragment. *)
Theorem missing_object_renders_type_error
    (w : world) (el : element) (r : response) (data : json) :
  getElementById (dom w) "weatherResult" = Some el ->
  ok r = true ->
  body_json r = Normal data ->
  (own data "current" = None \/
   (exists cur, own data "current" = Some cur /\ own cur "condition" = None) \/
   own data "location" = None) ->
  exists base prop,
    fst (chain (Normal r) w) = Normal Undefined
    /\ output (dom (snd (chain (Normal r) w)))
       = Some (error_fragment (type_error_message (CannotRead base prop)))
    /\ ~ is_success_fragment (fragment_of (Normal r))
    /\ count_writes (log (snd (chain (Normal r) w))) = S (count_writes (log w)).
Proof.
  intros Hout Hok Hbody Hmiss.
  destruct (pure_result_missing_object data Hmiss) as [base [prop Hres]].
  exists base, prop.
  assert (Hfrag : fragment_of (Normal r)
                  = error_fragment (type_error_message (CannotRead base prop))).
  { unfold fragment_of. now rewrite Hok, Hbody, Hres. }
  rewrite (chain_run (Normal r) w el Hout). cbn [fst snd dom log].
  repeat split.
  - rewrite (output_assign _ _ el Hout). now rewrite Hfrag.
  - rewrite Hfrag. intros [n [c0 [t [d Heq]]]].
    symmetry in Heq. now apply success_is_not_error in Heq.
  - rewrite count_writes_app, count_writes_chain_log. lia.
Qed.

(** C10. On any page with the output element, a failure's message goes
    into the assigned string between the two fixed parts of the error
    template as it stands, so for the failure whose message is the markup
    [<img src=x onerror=alert(1)>] the chain assigns that markup
    unescaped; and for every temperature the reading whose name, country
    and description are markup is assigned with that markup unescaped in
    the heading and the description line. *)
Theorem markup_is_interpolated_unescaped (w : world) (el : element) :
  getElementById (dom w) "weatherResult" = Some el ->
  (forall e : js_error,
      chain (Throw e) w
      = (Normal Undefined,
         {| dom := assign_innerHTML (dom w) "weatherResult"
                     ("<p style=" ++ dquote ++ "color: red;" ++ dquote ++ ">"
                        ++ message e ++ "</p>");
            log := (log w ++
                    [SetInnerHTML "weatherResult"
                       ("<p style=" ++ dquote ++ "color: red;" ++ dquote ++ ">"
                          ++ message e ++ "</p>")])%list |}))
  /\ (exists e : js_error,
        message e = "<img src=x onerror=alert(1)>" /\
        output (dom (snd (chain (Throw e) w)))
        = Some ("<p style=" ++ dquote ++ "color: red;" ++ dquote ++ ">"
                  ++ "<img src=x onerror=alert(1)>" ++ "</p>"))
  /\ (forall t : Num,
        exists (r : response) (h : string),
          ok r = true /\
          body_json r
          = Normal (JObj [("location", JObj [("name", JStr "<b>Paris</b>");
                                             ("country", JStr "<i>France</i>")]);
                          ("current", JObj [("temp_c", JNum t);
                                            ("condition",
                                             JObj [("text", JStr "<u>Clear</u>")])])]) /\
          chain (Normal r) w
          = (Normal Undefined,
             {| dom := assign_innerHTML (dom w) "weatherResult" h;
                log := (log w ++ [ReadJson; SetInnerHTML "weatherResult" h])%list |}) /\
          contains h "<h2>Weather in <b>Paris</b>, <i>France</i></h2>" /\
          contains h "<p>Description: <u>Clear</u></p>").
Proof.
  intros Hout.
  assert (Herr : forall e : js_error,
            chain (Throw e) w
            = (Normal Undefined,
               {| dom := assign_innerHTML (dom w) "weatherResult"
                           (error_fragment (message e));
                  log := (log w ++ [SetInnerHTML "weatherResult"
                                      (error_fragment (message e))])%list |})).
  { intros e. now rewrite (chain_run (Throw e) w el Hout). }
  split; [exact Herr|]. split.
  - exists (mkError "TypeError" "<img src=x onerror=alert(1)>").
    split; [reflexivity|].
    rewrite Herr. cbn [snd dom]. now rewrite (output_assign _ _ el Hout).
  - intros t.
    set (data := JObj [("location", JObj [("name", JStr "<b>Paris</b>");
                                          ("country", JStr "<i>France</i>")]);
                       ("current", JObj [("temp_c", JNum t);
                                         ("condition",
                                          JObj [("text", JStr "<u>Clear</u>")])])]).
    exists (mkResponse 200 (Normal data)).
    exists (success_fragment "<b>Paris</b>" "<i>France</i>" (number_to_string t)
              "<u>Clear</u>").
    split; [reflexivity|]. split; [reflexivity|].
    assert (Hfrag : fragment_of (Normal (mkResponse 200 (Normal data)))
                    = success_fragment "<b>Paris</b>" "<i>France</i>"
                        (number_to_string t) "<u>Clear</u>").
    { unfold fragment_of. simpl ok. cbv iota. simpl body_json. cbv iota.
      now rewrite (pure_result_fields data
                     (JObj [("name", JStr "<b>Paris</b>"); ("country", JStr "<i>France</i>")])
                     (JObj [("temp_c", JNum t);
                            ("condition", JObj [("text", JStr "<u>Clear</u>")])])
                     (JObj [("text", JStr "<u>Clear</u>")])
                     (JStr "<b>Paris</b>") (JStr "<i>France</i>") (JNum t)
                     (JStr "<u>Clear</u>")) by reflexivity. }
    assert (Hrun := chain_run (Normal (mkResponse 200 (Normal data))) w el Hout).
    unfold chain_log in Hrun. rewrite Hfrag in Hrun.
    destruct (success_fragment_contains "<b>Paris</b>" "<i>France</i>"
                (number_to_string t) "<u>Clear</u>") as [H1 [_ H3]].
    split; [exact Hrun|]. split; [exact H1 | exact H3].
Qed.

(** ** More facts about the document *)

Lemma assign_innerHTML_absent (d : document) (id html : string) :
  getElementById d id = None -> assign_innerHTML d id html = d.
Proof.
  induction d as [|[i e] d IH]; simpl; [reflexivity|].
  destruct (String.eqb i id); [discriminate|].
  intros H. now rewrite IH.
Qed.

Lemma assign_value_absent (d : document) (id text : string) :
  getElementById d id = None -> assign_value d id text = d.
Proof.
  induction d as [|[i e] d IH]; simpl; [reflexivity|].
  destruct (String.eqb i id); [discriminate|].
  intros H. now rewrite IH.
Qed.

Lemma assign_innerHTML_twice (d : document) (id h1 h2 : string) :
  assign_innerHTML (assign_innerHTML d id h1) id h2 = assign_innerHTML d id h2.
Proof.
  induction d as [|[i e] d IH]; simpl; [reflexivity|].
  destruct (String.eqb i id) eqn:Hi; simpl; rewrite Hi; [reflexivity|].
  now rewrite IH.
Qed.

Lemma assign_value_innerHTML_comm (d : document) (i1 i2 text html : string) :
  i1 <> i2 ->
  assign_value (assign_innerHTML d i2 html) i1 text
  = assign_innerHTML (assign_value d i1 text) i2 html.
Proof.
  intros Hne. induction d as [|[i e] d IH]; simpl; [reflexivity|].
  destruct (String.eqb_spec i i2) as [H2|H2];
    destruct (String.eqb_spec i i1) as [H1|H1]; simpl.
  - congruence.
  - destruct (String.eqb_spec i i1); [congruence|].
    destruct (String.eqb_spec i i2); [reflexivity | congruence].
  - destruct (String.eqb_spec i i1); [|congruence].
    destruct (String.eqb_spec i i2); [congruence | reflexivity].
  - destruct (String.eqb_spec i i1); [congruence|].
    destruct (String.eqb_spec i i2); [congruence|]. now rewrite IH.
Qed.

(** ** More facts about the log *)

Lemma fetched_app (l1 l2 : list io) :
  fetched (l1 ++ l2) = (fetched l1 ++ fetched l2)%list.
Proof. unfold fetched. apply flat_map_app. Qed.

Lemma count_fetch_fetched (l : list io) :
  count_fetch l = List.length (fetched l).
Proof.
  unfold count_fetch, fetched.
  induction l as [|[r| |id h] l IH]; simpl; congruence.
Qed.

(** ** The chain in any world *)

(** Without the output element the chain reads the body when it would
    have, writes nothing, and ends rejected. *)
Lemma chain_absent_run (answer : completion response) (w : world) :
  getElementById (dom w) "weatherResult" = None ->
  chain answer w
  = (Throw (TypeError (CannotSet IsNull "innerHTML")),
     {| dom := dom w;
        log := (log w ++ match answer with
                         | Normal r => if ok r then [ReadJson] else []
                         | Throw _ => []
                         end)%list |}).
Proof.
  intros H.
  assert (Herr : forall e w1, dom w1 = dom w ->
            on_error e w1 = (Throw (TypeError (CannotSet IsNull "innerHTML")), w1)).
  { intros e w1 Hw1. unfold on_error, bind.
    rewrite set_innerHTML_absent; [reflexivity | now rewrite Hw1]. }
  assert (Hw : {| dom := dom w; log := (log w ++ [])%list |} = w).
  { destruct w. simpl. now rewrite app_nil_r. }
  unfold chain, catch_, then_, bind, await.
  destruct answer as [r|e]; [|rewrite Herr by reflexivity; now rewrite Hw].
  destruct (ok r) eqn:Hok.
  - rewrite (on_response_ok r w Hok).
    destruct (body_json r) as [data|e]; [|now rewrite Herr].
    unfold on_data, bind. rewrite result_of_run.
    destruct (pure_result data) as [h|e]; [|now rewrite Herr].
    rewrite set_innerHTML_absent by exact H. now rewrite Herr.
  - rewrite (on_response_not_ok r w Hok).
    rewrite Herr by reflexivity. now rewrite Hw.
Qed.

(** In any world, a settled chain has at most assigned the fragment of
    its answer to the output element, and has made no request. *)
Lemma chain_world (answer : completion response) (w : world) :
  dom (snd (chain answer w))
  = assign_innerHTML (dom w) "weatherResult" (fragment_of answer)
  /\ exists l, log (snd (chain answer w)) = (log w ++ l)%list /\ fetched l = [].
Proof.
  destruct (getElementById (dom w) "weatherResult") as [el|] eqn:Hout.
  - rewrite (chain_run answer w el Hout). simpl. split; [reflexivity|].
    exists (chain_log answer). split; [reflexivity|].
    unfold chain_log. destruct answer as [r|e]; [destruct (ok r)|]; reflexivity.
  - rewrite (chain_absent_run answer w Hout). simpl. split.
    + now rewrite assign_innerHTML_absent.
    + eexists. split; [reflexivity|].
      destruct answer as [r|e]; [destruct (ok r)|]; reflexivity.
Qed.

(** ** Runs of the page, step by step *)

Lemma page_step_world (p p' : page) (ev : page_event) :
  page_step p ev = Some p' ->
  match ev with
  | Edit text =>
      page_world p' = {| dom := assign_value (dom (page_world p)) "city" text;
                         log := log (page_world p) |}
      /\ in_flight p' = in_flight p
  | Click =>
      page_world p' = snd (getWeather_click (page_world p))
      /\ in_flight p'
         = match getElementById (dom (page_world p)) "city" with
           | Some _ => S (in_flight p)
           | None => in_flight p
           end
  | Settle a =>
      page_world p' = snd (chain a (page_world p))
      /\ S (in_flight p') = in_flight p
  end.
Proof.
  destruct ev as [text| |a]; simpl; intros H.
  - injection H as <-. split; reflexivity.
  - destruct (getElementById (dom (page_world p)) "city") as [c|] eqn:Hcity.
    + rewrite (click_run _ c Hcity) in *. injection H as <-. split; reflexivity.
    + rewrite (click_absent _ Hcity) in *. injection H as <-. split; reflexivity.
  - destruct (in_flight p) as [|n]; [discriminate|].
    injection H as <-. split; reflexivity.
Qed.

Lemma run_without_field (evs : list page_event) :
  forall p p' : page,
    getElementById (dom (page_world p)) "city" = None ->
    run_page p evs = Some p' ->
    fetched (log (page_world p')) = fetched (log (page_world p))
    /\ in_flight p' + count_settled evs = in_flight p.
Proof.
  induction evs as [|ev rest IH]; intros p p' Hcity Hrun; simpl in Hrun.
  - injection Hrun as <-. unfold count_settled. simpl. split; [reflexivity | lia].
  - destruct (page_step p ev) as [p1|] eqn:Hstep; [|discriminate].
    pose proof (page_step_world p p1 ev Hstep) as Hw.
    assert (H1 : getElementById (dom (page_world p1)) "city" = None
                 /\ fetched (log (page_world p1)) = fetched (log (page_world p))
                 /\ in_flight p1 + match ev with Settle _ => 1 | _ => 0 end
                    = in_flight p).
    { destruct ev as [text| |a].
      - destruct Hw as [-> ->]. simpl.
        rewrite assign_value_absent by exact Hcity.
        repeat split; first [assumption | lia].
      - destruct Hw as [-> ->]. rewrite Hcity, (click_absent _ Hcity). simpl.
        repeat split; first [assumption | lia].
      - destruct Hw as [-> Hn].
        destruct (chain_world a (page_world p)) as [Hdom [l [Hlog Hl]]].
        rewrite Hdom, Hlog, fetched_app, Hl, app_nil_r.
        rewrite getElementById_assign_other by discriminate.
        repeat split; first [assumption | lia]. }
    destruct H1 as [Hcity1 [Hf1 Hn1]].
    destruct (IH p1 p' Hcity1 Hrun) as [Hf Hn].
    split; [congruence|].
    unfold count_settled in *. simpl. destruct ev; simpl in *; lia.
Qed.

Lemma run_with_field (evs : list page_event) :
  forall (p p' : page) (c : element),
    getElementById (dom (page_world p)) "city" = Some c ->
    run_page p evs = Some p' ->
    count_fetch (log (page_world p'))
    = count_fetch (log (page_world p)) + count_clicks evs
    /\ in_flight p' + count_settled evs = in_flight p + count_clicks evs.
Proof.
  induction evs as [|ev rest IH]; intros p p' c Hcity Hrun; simpl in Hrun.
  - injection Hrun as <-. unfold count_settled, count_clicks. simpl. split; lia.
  - destruct (page_step p ev) as [p1|] eqn:Hstep; [|discriminate].
    pose proof (page_step_world p p1 ev Hstep) as Hw.
    assert (H1 : (exists c1, getElementById (dom (page_world p1)) "city" = Some c1)
                 /\ count_fetch (log (page_world p1))
                    = count_fetch (log (page_world p))
                      + match ev with Click => 1 | _ => 0 end
                 /\ in_flight p1 + match ev with Settle _ => 1 | _ => 0 end
                    = in_flight p + match ev with Click => 1 | _ => 0 end).
    { destruct ev as [text| |a].
      - destruct Hw as [-> ->]. simpl. repeat split; try lia.
        eexists. apply (getElementById_assign_value_same _ _ _ c Hcity).
      - destruct Hw as [-> ->]. rewrite Hcity, (click_run _ c Hcity). simpl.
        repeat split; try lia; [now exists c|].
        rewrite count_fetch_app. unfold count_fetch at 2. simpl. lia.
      - destruct Hw as [-> Hn].
        destruct (chain_world a (page_world p)) as [Hdom [l [Hlog Hl]]].
        rewrite Hdom, Hlog, count_fetch_app, (count_fetch_fetched l), Hl.
        rewrite getElementById_assign_other by discriminate.
        repeat split; try (simpl; lia). now exists c. }
    destruct H1 as [[c1 Hcity1] [Hf1 Hn1]].
    destruct (IH p1 p' c1 Hcity1 Hrun) as [Hf Hn].
    unfold count_settled, count_clicks in *. simpl.
    destruct ev; simpl in *; split; lia.
Qed.


Lemma run_requests (evs : list page_event) :
  forall p p' : page,
    run_page p evs = Some p' ->
    exists new,
      fetched (log (page_world p')) = (fetched (log (page_world p)) ++ new)%list /\
      Forall (fun rq => exists q, rq = request_of (build_url q) None) new.
Proof.
  induction evs as [|ev rest IH]; intros p p' Hrun; simpl in Hrun.
  - injection Hrun as <-. exists []. split; [now rewrite app_nil_r | constructor].
  - destruct (page_step p ev) as [p1|] eqn:Hstep; [|discriminate].
    pose proof (page_step_world p p1 ev Hstep) as Hw.
    destruct (IH p1 p' Hrun) as [new [Hnew Hall]].
    destruct ev as [text| |a].
    + destruct Hw as [Hw _]. rewrite Hw in Hnew. simpl in Hnew.
      exists new. split; assumption.
    + destruct Hw as [Hw _]. rewrite Hw in Hnew.
      destruct (getElementById (dom (page_world p)) "city") as [c|] eqn:Hcity.
      * rewrite (click_run _ c Hcity) in Hnew. simpl in Hnew.
        rewrite fetched_app in Hnew. simpl in Hnew.
        exists (request_of (build_url (value c)) None :: new).
        split; [now rewrite Hnew, <- app_assoc|].
        constructor; [now exists (value c) | exact Hall].
      * rewrite (click_absent _ Hcity) in Hnew. simpl in Hnew.
        exists new. split; assumption.
    + destruct Hw as [Hw _]. rewrite Hw in Hnew.
      destruct (chain_world a (page_world p)) as [_ [l [Hlog Hl]]].
      rewrite Hlog, fetched_app, Hl, app_nil_r in Hnew.
      exists new. split; assumption.
Qed.

(** ** The template on any body *)

Lemma Get_nonnull (j : json) (p : string) (w : world) :
  j <> JNull ->
  Get (Json j) p w
  = (Normal (match own j p with Some x => Json x | None => Undefined end), w).
Proof. intros Hj. destruct j; try contradiction; reflexivity. Qed.

Lemma ToString_read (j : json) (p : string) (w : world) :
  ToString (match own j p with Some x => Json x | None => Undefined end) w
  = (substitution j p, w).
Proof. unfold substitution. destruct (own j p); reflexivity. Qed.

Lemma own_some_nonnull (j x : json) (p : string) : own j p = Some x -> j <> JNull.
Proof. intros H ->. discriminate. Qed.

(** A missing or primitive leaf converts without throwing. *)
Lemma substitution_leaf (j : json) (p s : string) :
  leaf_text (own j p) = Some s -> substitution j p = Normal s.
Proof.
  unfold substitution, leaf_text.
  destruct (own j p) as [[| [|] | n | x | items | props]|]; simpl;
    intros H; first [discriminate | now injection H as <-].
Qed.

(** With the three objects in place, the template is its four
    substitutions in the order name, country, temperature,
    description. *)
Lemma pure_result_substitutions (data loc cur cond : json) :
  own data "location" = Some loc -> loc <> JNull ->
  own data "current" = Some cur ->
  own cur "condition" = Some cond -> cond <> JNull ->
  pure_result data
  = match substitution loc "name" with
    | Throw e => Throw e
    | Normal sn =>
        match substitution loc "country" with
        | Throw e => Throw e
        | Normal sc =>
            match substitution cur "temp_c" with
            | Throw e => Throw e
            | Normal st =>
                match substitution cond "text" with
                | Throw e => Throw e
                | Normal sd => Normal (success_fragment sn sc st sd)
                end
            end
        end
    end.
Proof.
  intros Hloc Hlnn Hcur Hcond Hcnn.
  pose proof (own_some_nonnull _ _ _ Hcond) as Hcurnn.
  unfold pure_result, result_of, bind.
  rewrite (Get_own _ _ _ _ Hcur), (Get_own _ _ _ _ Hcond).
  rewrite (Get_nonnull cond "text" _ Hcnn).
  rewrite (Get_own _ _ _ _ Hcur), (Get_nonnull cur "temp_c" _ Hcurnn).
  rewrite (Get_own _ _ _ _ Hloc), (Get_nonnull loc "name" _ Hlnn).
  rewrite ToString_read.
  destruct (substitution loc "name") as [sn|e]; [|reflexivity].
  rewrite (Get_own _ _ _ _ Hloc), (Get_nonnull loc "country" _ Hlnn).
  rewrite ToString_read.
  destruct (substitution loc "country") as [sc|e]; [|reflexivity].
  rewrite ToString_read.
  destruct (substitution cur "temp_c") as [st|e]; [|reflexivity].
  rewrite ToString_read.
  destruct (substitution cond "text") as [sd|e]; reflexivity.
Qed.

Lemma pure_result_unreadable (data : json) (base : nullish) (prop : string) :
  unreadable data base prop ->
  pure_result data = Throw (TypeError (CannotRead base prop)).
Proof.
  intros H. unfold pure_result, result_of, bind.
  destruct H as [ | data Hd Hcur | data Hcur | data cur Hcur Hc Hcond
                | data cur Hcur Hcond | data cur cond Hcur Hcond Hc Hloc
                | data cur cond Hcur Hcond Hc Hloc ].
  - reflexivity.
  - rewrite (Get_nonnull data "current" _ Hd), Hcur. reflexivity.
  - rewrite (Get_own _ _ _ _ Hcur). reflexivity.
  - rewrite (Get_own _ _ _ _ Hcur), (Get_nonnull cur "condition" _ Hc), Hcond.
    reflexivity.
  - rewrite (Get_own _ _ _ _ Hcur), (Get_own _ _ _ _ Hcond). reflexivity.
  - pose proof (own_some_nonnull _ _ _ Hcur) as Hd.
    pose proof (own_some_nonnull _ _ _ Hcond) as Hcurnn.
    rewrite (Get_own _ _ _ _ Hcur), (Get_own _ _ _ _ Hcond).
    rewrite (Get_nonnull cond "text" _ Hc).
    rewrite (Get_own _ _ _ _ Hcur), (Get_nonnull cur "temp_c" _ Hcurnn).
    rewrite (Get_nonnull data "location" _ Hd), Hloc. reflexivity.
  - pose proof (own_some_nonnull _ _ _ Hcond) as Hcurnn.
    rewrite (Get_own _ _ _ _ Hcur), (Get_own _ _ _ _ Hcond).
    rewrite (Get_nonnull cond "text" _ Hc).
    rewrite (Get_own _ _ _ _ Hcur), (Get_nonnull cur "temp_c" _ Hcurnn).
    rewrite (Get_own _ _ _ _ Hloc). reflexivity.
Qed.

Lemma json_to_string_cons (x y : json) (rest : list json) :
  json_to_string (JArr (x :: y :: rest))
  = match item_to_string x with
    | Throw e => Throw e
    | Normal s =>
        match json_to_string (JArr (y :: rest)) with
        | Throw e => Throw e
        | Normal r => Normal (s ++ "," ++ r)
        end
    end.
Proof. reflexivity. Qed.

Lemma json_to_string_single (x : json) :
  json_to_string (JArr [x]) = item_to_string x.
Proof. simpl. unfold item_to_string. destruct x; try reflexivity;
       destruct (json_to_string _); reflexivity. Qed.

(** The one way [ToString] fails on a parsed value. *)
Lemma json_to_string_throws :
  forall (j : json) (e : js_error),
    json_to_string j = Throw e -> e = TypeError CannotConvert.
Proof.
  fix IH 1. intros j e. destruct j as [| b | n | s | items | props].
  - discriminate.
  - destruct b; discriminate.
  - discriminate.
  - discriminate.
  - revert e. induction items as [|x rest IHrest]; intros e; [discriminate|].
    assert (Hitem : forall e0, item_to_string x = Throw e0 ->
                      e0 = TypeError CannotConvert).
    { pose proof (IH x) as Hx. intros e0. unfold item_to_string.
      destruct x; try discriminate; apply Hx. }
    destruct rest as [|y rest'].
    + rewrite json_to_string_single. apply Hitem.
    + rewrite json_to_string_cons.
      destruct (item_to_string x) as [s|e0] eqn:Hx.
      * destruct (json_to_string (JArr (y :: rest'))) as [r|e1] eqn:Hrest;
          [discriminate|].
        intros H. injection H as <-. now apply IHrest.
      * intros H. injection H as <-. now apply Hitem.
  - simpl. destruct (assoc "toString" props); [|discriminate].
    intros H. now injection H as <-.
Qed.

Lemma substitution_throws (j : json) (p : string) (e : js_error) :
  substitution j p = Throw e -> e = TypeError CannotConvert.
Proof.
  unfold substitution. destruct (own j p) as [v|]; [|discriminate].
  apply json_to_string_throws.
Qed.

(** Every way the template can throw: a read through undefined or
    null, or a conversion. *)
Lemma pure_result_throws (data : json) (e : js_error) :
  pure_result data = Throw e ->
  (exists base prop,
      unreadable data base prop /\ e = TypeError (CannotRead base prop))
  \/ e = TypeError CannotConvert.
Proof.
  intros H.
  assert (Hun : forall base prop, unreadable data base prop ->
            exists base prop,
              unreadable data base prop /\ e = TypeError (CannotRead base prop)).
  { intros base prop Hu. exists base, prop. split; [exact Hu|].
    rewrite (pure_result_unreadable _ _ _ Hu) in H. now injection H as <-. }
  destruct data as [| b | n | s | items | props];
    try (left; eapply Hun; first [ apply unreadable_body
                                 | apply unreadable_no_current;
                                   [discriminate | reflexivity] ]; fail).
  destruct (own (JObj props) "current") as [cur|] eqn:Hcur;
    [|left; eapply Hun; apply unreadable_no_current; [discriminate | exact Hcur]].
  destruct cur as [| b | n | s | items | props2];
    try (left; eapply Hun;
         first [ apply unreadable_null_current; exact Hcur
               | eapply unreadable_no_condition;
                 [exact Hcur | discriminate | reflexivity] ]; fail).
  destruct (own (JObj props2) "condition") as [cond|] eqn:Hcond;
    [|left; eapply Hun; eapply unreadable_no_condition;
      [exact Hcur | discriminate | exact Hcond]].
  destruct (match cond with JNull => true | _ => false end) eqn:Hcn.
  { destruct cond; try discriminate.
    left. eapply Hun. eapply unreadable_null_condition; eassumption. }
  assert (Hcnn : cond <> JNull) by (intros ->; discriminate).
  destruct (own (JObj props) "location") as [loc|] eqn:Hloc;
    [|left; eapply Hun; eapply unreadable_no_location; eassumption].
  destruct (match loc with JNull => true | _ => false end) eqn:Hln.
  { destruct loc; try discriminate.
    left. eapply Hun. eapply unreadable_null_location; eassumption. }
  assert (Hlnn : loc <> JNull) by (intros ->; discriminate).
  right.
  rewrite (pure_result_substitutions _ loc _ cond Hloc Hlnn Hcur Hcond Hcnn) in H.
  destruct (substitution loc "name") as [sn|e1] eqn:H1;
    [|injection H as <-; now apply (substitution_throws _ _ _ H1)].
  destruct (substitution loc "country") as [sc|e2] eqn:H2;
    [|injection H as <-; now apply (substitution_throws _ _ _ H2)].
  destruct (substitution (JObj props2) "temp_c") as [st|e3] eqn:H3;
    [|injection H as <-; now apply (substitution_throws _ _ _ H3)].
  destruct (substitution cond "text") as [sd|e4] eqn:H4;
    [discriminate | injection H as <-; now apply (substitution_throws _ _ _ H4)].
Qed.

(** ** Steps of the page with the requests told apart *)

Lemma tracked_click (p : tracked) (c : element) :
  getElementById (dom (tracked_world p)) "city" = Some c ->
  tracked_step p TClick
  = Some {| tracked_world :=
              {| dom := dom (tracked_world p);
                 log := (log (tracked_world p)
                         ++ [Fetch (request_of (build_url (value c)) None)])%list |};
            pending := (pending p ++ [request_of (build_url (value c)) None])%list |}.
Proof.
  intros Hcity. unfold tracked_step. cbv zeta.
  rewrite (click_run _ c Hcity). cbn [snd log].
  rewrite skipn_app, skipn_all, Nat.sub_diag. reflexivity.
Qed.

Lemma tracked_edit (p : tracked) (text : string) :
  tracked_step p (TEdit text)
  = Some {| tracked_world :=
              {| dom := assign_value (dom (tracked_world p)) "city" text;
                 log := log (tracked_world p) |};
            pending := pending p |}.
Proof. reflexivity. Qed.

Lemma tracked_settle (p : tracked) (i : nat) (rq : request)
    (answer : completion response) (el : element) :
  nth_error (pending p) i = Some rq ->
  getElementById (dom (tracked_world p)) "weatherResult" = Some el ->
  tracked_step p (TSettle i answer)
  = Some {| tracked_world :=
              {| dom := assign_innerHTML (dom (tracked_world p)) "weatherResult"
                          (fragment_of answer);
                 log := (log (tracked_world p) ++ chain_log answer)%list |};
            pending := remove_nth i (pending p) |}.
Proof.
  intros Hnth Hout. unfold tracked_step. rewrite Hnth.
  now rewrite (chain_run answer _ el Hout).
Qed.

(** ** Results beyond the claims *)

(** X1. On a page without the [city] field the listener throws the
    engine's [TypeError] for reading [value] of null before it reaches
    [fetch]: the click leaves the world as it was, and over any run of
    edits, clicks and settlements no request is ever made, so the
    requests in flight only go down. *)
Theorem click_without_field_never_fetches
    (p p' : page) (evs : list page_event) :
  getElementById (dom (page_world p)) "city" = None ->
  run_page p evs = Some p' ->
  getWeather_click (page_world p)
  = (Throw (TypeError (CannotRead IsNull "value")), page_world p)
  /\ fetched (log (page_world p')) = fetched (log (page_world p))
  /\ in_flight p' + count_settled evs = in_flight p.
Proof.
  intros Hcity Hrun. split; [now apply click_absent|].
  now apply run_without_field.
Qed.

(** X2. On a page without the output element every chain ends
    rejected, whatever the answer: the callback that would write throws
    the engine's [TypeError] for setting [innerHTML] of null, the [catch]
    callback throws it again for the same reason, and nothing catches
    that; the document is unchanged and nothing is written. *)
Theorem chain_without_output_is_rejected
    (w : world) (answer : completion response) :
  getElementById (dom w) "weatherResult" = None ->
  fst (chain answer w) = Throw (TypeError (CannotSet IsNull "innerHTML"))
  /\ dom (snd (chain answer w)) = dom w
  /\ count_writes (log (snd (chain answer w))) = count_writes (log w)
  /\ count_fetch (log (snd (chain answer w))) = count_fetch (log w).
Proof.
  intros Hout. rewrite (chain_absent_run answer w Hout). cbn [fst snd dom log].
  repeat split.
  - rewrite count_writes_app.
    destruct answer as [r|e]; [destruct (ok r)|]; unfold count_writes; simpl; lia.
  - rewrite count_fetch_app.
    destruct answer as [r|e]; [destruct (ok r)|]; unfold count_fetch; simpl; lia.
Qed.

(** X3. When the body has its [location], [current] and
    [current.condition] and each of the four leaves is missing or holds a
    primitive (a string, a number, a boolean or null), nothing is thrown:
    the success fragment is written with each leaf's text, and a missing
    leaf reads as undefined, so the text "undefined" stands in its
    place. *)
Theorem absent_leaf_renders_undefined
    (w : world) (el : element) (r : response)
    (data loc cur cond : json) (sn sc st sd : string) :
  getElementById (dom w) "weatherResult" = Some el ->
  ok r = true ->
  body_json r = Normal data ->
  own data "location" = Some loc -> loc <> JNull ->
  own data "current" = Some cur ->
  own cur "condition" = Some cond -> cond <> JNull ->
  leaf_text (own loc "name") = Some sn ->
  leaf_text (own loc "country") = Some sc ->
  leaf_text (own cur "temp_c") = Some st ->
  leaf_text (own cond "text") = Some sd ->
  chain (Normal r) w
  = (Normal Undefined,
     {| dom := assign_innerHTML (dom w) "weatherResult"
                 (success_fragment sn sc st sd);
        log := (log w ++ [ReadJson;
                          SetInnerHTML "weatherResult"
                            (success_fragment sn sc st sd)])%list |})
  /\ (own loc "name" = None -> sn = "undefined")
  /\ (own loc "country" = None -> sc = "undefined")
  /\ (own cur "temp_c" = None -> st = "undefined")
  /\ (own cond "text" = None -> sd = "undefined").
Proof.
  intros Hout Hok Hbody Hloc Hlnn Hcur Hcond Hcnn Hn Hc Ht Hd.
  assert (Hfrag : fragment_of (Normal r) = success_fragment sn sc st sd).
  { unfold fragment_of. rewrite Hok, Hbody.
    rewrite (pure_result_substitutions data loc cur cond Hloc Hlnn Hcur Hcond Hcnn).
    now rewrite (substitution_leaf _ _ _ Hn), (substitution_leaf _ _ _ Hc),
      (substitution_leaf _ _ _ Ht), (substitution_leaf _ _ _ Hd). }
  assert (Hrun := chain_run (Normal r) w el Hout).
  unfold chain_log in Hrun. rewrite Hok, Hfrag in Hrun.
  split; [exact Hrun|].
  repeat split; intros Hnone.
  - rewrite Hnone in Hn. now injection Hn.
  - rewrite Hnone in Hc. now injection Hc.
  - rewrite Hnone in Ht. now injection Ht.
  - rewrite Hnone in Hd. now injection Hd.
Qed.

(** X4. The reads of lines 14-17 happen in the order
    [data.current.condition.text], [data.current.temp_c],
    [data.location.name]; the first one that meets undefined or null
    decides the error, and the output element receives the error fragment
    with exactly the engine's message for that read.  A property that is
    present but null fails like a missing one, and a body lacking both
    [current] and [location] reports the read of [condition]. *)
Theorem first_unreadable_object_decides_message
    (w : world) (el : element) (r : response) (data : json)
    (base : nullish) (prop : string) :
  getElementById (dom w) "weatherResult" = Some el ->
  ok r = true ->
  body_json r = Normal data ->
  unreadable data base prop ->
  chain (Normal r) w
  = (Normal Undefined,
     {| dom := assign_innerHTML (dom w) "weatherResult"
                 (error_fragment (type_error_message (CannotRead base prop)));
        log := (log w ++ [ReadJson;
                          SetInnerHTML "weatherResult"
                            (error_fragment
                               (type_error_message (CannotRead base prop)))])%list |}).
Proof.
  intros Hout Hok Hbody Hun.
  assert (Hfrag : fragment_of (Normal r)
                  = error_fragment (type_error_message (CannotRead base prop))).
  { unfold fragment_of.
    now rewrite Hok, Hbody, (pure_result_unreadable data base prop Hun). }
  assert (Hrun := chain_run (Normal r) w el Hout).
  unfold chain_log in Hrun. now rewrite Hok, Hfrag in Hrun.
Qed.

(** X5. Whatever the answer, the output element receives either a
    success fragment or an error fragment whose text is one of five: the
    fixed "City not found", the message of the rejection of [fetch], the
    message of the rejection of [response.json()], the engine's message
    for the first read through undefined or null, or the engine's message
    for a value that has no string form.  Nothing else is ever shown. *)
Theorem rendered_text_is_one_of_five
    (w : world) (el : element) (answer : completion response) :
  getElementById (dom w) "weatherResult" = Some el ->
  output (dom (snd (chain answer w))) = Some (fragment_of answer)
  /\ (is_success_fragment (fragment_of answer)
      \/ exists m,
           fragment_of answer = error_fragment m /\
           ((exists r, answer = Normal r /\ ok r = false /\ m = "City not found")
            \/ (exists e, answer = Throw e /\ m = message e)
            \/ (exists r e, answer = Normal r /\ ok r = true /\
                            body_json r = Throw e /\ m = message e)
            \/ (exists r data base prop,
                   answer = Normal r /\ ok r = true /\
                   body_json r = Normal data /\
                   unreadable data base prop /\
                   m = type_error_message (CannotRead base prop))
            \/ (exists r data,
                   answer = Normal r /\ ok r = true /\
                   body_json r = Normal data /\
                   m = type_error_message CannotConvert))).
Proof.
  intros Hout. split.
  { rewrite (chain_run answer w el Hout). simpl. now apply (output_assign _ _ el). }
  unfold fragment_of.
  destruct answer as [r|e].
  - destruct (ok r) eqn:Hok.
    + destruct (body_json r) as [data|e] eqn:Hbody.
      * destruct (pure_result data) as [h|e] eqn:Hres.
        -- left. now apply (pure_result_success data).
        -- right. exists (message e). split; [reflexivity|].
           destruct (pure_result_throws data e Hres) as [[base [prop [Hun ->]]] | ->].
           ++ right. right. right. left. exists r, data, base, prop. now repeat split.
           ++ right. right. right. right. exists r, data. now repeat split.
      * right. exists (message e). split; [reflexivity|].
        right. right. left. exists r, e. now repeat split.
    + right. exists "City not found". split; [reflexivity|].
      left. exists r. now repeat split.
  - right. exists (message e). split; [reflexivity|].
    right. left. now exists e.
Qed.

(** X6. A settlement overwrites the whole effect of the one before it:
    in any world, the document after two settled chains is the document
    after the second alone, and settling the same answer twice leaves the
    document that settling it once leaves. *)
Theorem later_settlement_overwrites_earlier
    (w : world) (a1 a2 : completion response) :
  dom (snd (chain a2 (snd (chain a1 w)))) = dom (snd (chain a2 w))
  /\ dom (snd (chain a1 (snd (chain a1 w)))) = dom (snd (chain a1 w)).
Proof.
  destruct (chain_world a1 w) as [H1 _].
  destruct (chain_world a2 w) as [H2 _].
  destruct (chain_world a2 (snd (chain a1 w))) as [H21 _].
  destruct (chain_world a1 (snd (chain a1 w))) as [H11 _].
  rewrite H21, H11, H1, H2. now rewrite !assign_innerHTML_twice.
Qed.

(** X7. Typing into the field and a request settling do not disturb
    each other: the page is the same whichever comes first, so a
    settlement never changes what the user has typed and typing never
    changes what is shown or what is logged. *)
Theorem edit_and_settlement_commute
    (p : page) (text : string) (a : completion response) :
  run_page p [Edit text; Settle a] = run_page p [Settle a; Edit text]
  /\ (in_flight p <> 0 -> exists q, run_page p [Settle a; Edit text] = Some q).
Proof.
  simpl. destruct (in_flight p) as [|n]; [split; [reflexivity | contradiction]|].
  split; [|intros _; eexists; reflexivity].
  do 2 f_equal.
  set (w := page_world p).
  set (w1 := {| dom := assign_value (dom w) "city" text; log := log w |}).
  destruct (getElementById (dom w) "weatherResult") as [el|] eqn:Hout.
  - assert (Hout1 : getElementById (dom w1) "weatherResult" = Some el).
    { simpl. now rewrite getElementById_assign_value_other by discriminate. }
    rewrite (chain_run a w el Hout), (chain_run a w1 el Hout1). simpl.
    f_equal. symmetry. apply assign_value_innerHTML_comm. discriminate.
  - assert (Hout1 : getElementById (dom w1) "weatherResult" = None).
    { simpl. now rewrite getElementById_assign_value_other by discriminate. }
    now rewrite (chain_absent_run a w Hout), (chain_absent_run a w1 Hout1).
Qed.

(** X8. On a page with the [city] field, over any run of edits, clicks
    and settlements the number of requests made is the number of clicks:
    one [fetch] per click, none on an edit, none on a settlement, none
    again after a failure; and every request is either in flight or has
    settled. *)
Theorem one_fetch_per_click_over_runs
    (p p' : page) (evs : list page_event) (c : element) :
  getElementById (dom (page_world p)) "city" = Some c ->
  run_page p evs = Some p' ->
  count_fetch (log (page_world p'))
  = count_fetch (log (page_world p)) + count_clicks evs
  /\ in_flight p' + count_settled evs = in_flight p + count_clicks evs.
Proof. intros Hcity Hrun. now apply (run_with_field evs p p' c). Qed.

(** X9. Over any run, every request the page makes is a GET without
    body or headers to the weather endpoint, carrying the fixed
    credential and [aqi=no]: nothing is ever sent anywhere else or by any
    other method. *)
Theorem every_request_goes_to_the_weather_endpoint
    (p p' : page) (evs : list page_event) :
  run_page p evs = Some p' ->
  exists new,
    fetched (log (page_world p')) = (fetched (log (page_world p)) ++ new)%list /\
    Forall (fun rq =>
              req_method rq = "GET" /\ req_headers rq = [] /\ req_body rq = None /\
              exists q,
                req_url rq
                = "https://api.weatherapi.com/v1/current.json?key=141623457ed8473b88b145446242110&q="
                    ++ q ++ "&aqi=no") new.
Proof.
  intros Hrun. destruct (run_requests evs p p' Hrun) as [new [Hnew Hall]].
  exists new. split; [exact Hnew|].
  eapply Forall_impl; [|exact Hall].
  intros rq [q ->]. repeat split. now exists q.
Qed.

(** X10. Nothing ties a settlement to the latest click.  After a click
    for one city and then a click for another, if the second request
    settles first and the first one last, the output element ends up
    showing the answer to the first request while the field holds the
    second city. *)
Theorem stale_response_overwrites_newer
    (w : world) (c el : element) (qa qb : string) (a b : completion response) :
  getElementById (dom w) "city" = Some c ->
  getElementById (dom w) "weatherResult" = Some el ->
  exists p1 p2,
    run_tracked {| tracked_world := w; pending := [] |}
      [TEdit qa; TClick; TEdit qb; TClick] = Some p1
    /\ pending p1 = [request_of (build_url qa) None; request_of (build_url qb) None]
    /\ run_tracked p1 [TSettle 1 b; TSettle 0 a] = Some p2
    /\ pending p2 = []
    /\ option_map value (getElementById (dom (tracked_world p2)) "city") = Some qb
    /\ output (dom (tracked_world p2)) = Some (fragment_of a).
Proof.
  intros Hcity Hout.
  pose proof (getElementById_assign_value_same (dom w) "city" qa c Hcity) as Ha.
  pose proof (getElementById_assign_value_same _ "city" qb _ Ha) as Hb.
  assert (Hout2 : getElementById
                    (assign_value (assign_value (dom w) "city" qa) "city" qb)
                    "weatherResult" = Some el).
  { now rewrite !getElementById_assign_value_other by discriminate. }
  set (rqa := request_of (build_url qa) None).
  set (rqb := request_of (build_url qb) None).
  set (d2 := assign_value (assign_value (dom w) "city" qa) "city" qb) in *.
  set (p1 := {| tracked_world := {| dom := d2;
                                    log := ((log w ++ [Fetch rqa]) ++ [Fetch rqb])%list |};
                pending := [rqa; rqb] |}).
  set (el1 := {| value := value el; innerHTML := fragment_of b |}).
  assert (Hout3 : getElementById (assign_innerHTML d2 "weatherResult" (fragment_of b))
                    "weatherResult" = Some el1).
  { apply (getElementById_assign_same _ _ _ el Hout2). }
  set (p2 := {| tracked_world :=
                  {| dom := assign_innerHTML
                              (assign_innerHTML d2 "weatherResult" (fragment_of b))
                              "weatherResult" (fragment_of a);
                     log := ((log (tracked_world p1) ++ chain_log b)
                             ++ chain_log a)%list |};
                pending := [] |}).
  exists p1, p2.
  split.
  { cbn [run_tracked].
    rewrite tracked_edit. cbn [tracked_world pending dom log].
    erewrite tracked_click by (cbn [tracked_world dom]; exact Ha).
    rewrite tracked_edit. cbn [tracked_world pending dom log value app].
    erewrite tracked_click by (cbn [tracked_world dom]; exact Hb).
    reflexivity. }
  split; [reflexivity|].
  split.
  { cbn [run_tracked].
    rewrite (tracked_settle p1 1 rqb b el eq_refl Hout2).
    erewrite (tracked_settle _ 0 rqa a el1) by first [reflexivity | exact Hout3].
    reflexivity. }
  split; [reflexivity|]. split.
  - cbn [p2 tracked_world dom].
    rewrite !getElementById_assign_other by discriminate.
    now rewrite Hb.
  - cbn [p2 tracked_world dom]. now apply (output_assign _ _ el1).
Qed.


Lemma dispatch_with_field (n : nat) :
  forall (p : page) (c : element),
    getElementById (dom (page_world p)) "city" = Some c ->
    exists p',
      dispatch n p = Some p'
      /\ dom (page_world p') = dom (page_world p)
      /\ fetched (log (page_world p'))
         = (fetched (log (page_world p))
            ++ repeat (request_of (build_url (value c)) None) n)%list
      /\ in_flight p' = in_flight p + n.
Proof.
  induction n as [|n IH]; intros p c Hcity.
  - exists p. simpl. rewrite app_nil_r. repeat split. lia.
  - cbn [dispatch page_step]. rewrite (click_run _ c Hcity).
    destruct (IH {| page_world :=
                      {| dom := dom (page_world p);
                         log := (log (page_world p)
                                 ++ [Fetch (request_of (build_url (value c)) None)])%list |};
                    in_flight := S (in_flight p) |} c Hcity)
      as [p' [Hrun [Hdom [Hlog Hn]]]].
    exists p'. simpl in *. rewrite Hrun, Hdom, Hlog, Hn, fetched_app. simpl.
    repeat split; [now rewrite <- app_assoc | lia].
Qed.

(** X12. Loading the script on a page that has the button registers one
    more listener and touches nothing else; a press of the button then
    makes one request for the field's text per registered listener, so
    none before the script has loaded, one after it has loaded once, and
    two if the script was loaded twice. *)
Theorem press_fetches_once_per_listener (s : session) (b c : element) :
  getElementById (dom (page_world (session_page s))) "getWeather" = Some b ->
  getElementById (dom (page_world (session_page s))) "city" = Some c ->
  script s
  = (Normal tt, {| session_page := session_page s; listeners := S (listeners s) |})
  /\ exists s',
       press s = Some s'
       /\ listeners s' = listeners s
       /\ dom (page_world (session_page s')) = dom (page_world (session_page s))
       /\ fetched (log (page_world (session_page s')))
          = (fetched (log (page_world (session_page s)))
             ++ repeat (request_of (build_url (value c)) None) (listeners s))%list
       /\ in_flight (session_page s') = in_flight (session_page s) + listeners s.
Proof.
  intros Hb Hc. unfold script, press. rewrite Hb. split; [reflexivity|].
  destruct (dispatch_with_field (listeners s) (session_page s) c Hc)
    as [p' [Hrun [Hdom [Hlog Hn]]]].
  rewrite Hrun. simpl. eexists. split; [reflexivity|]. simpl.
  repeat split; assumption.
Qed.

(** Loading the script on a page without the button throws the
    engine's [TypeError] for reading [addEventListener] of null and
    registers nothing. *)
Lemma script_without_button_registers_nothing (s : session) :
  getElementById (dom (page_world (session_page s))) "getWeather" = None ->
  script s = (Throw (TypeError (CannotRead IsNull "addEventListener")), s)
  /\ press s = None.
Proof. intros Hb. unfold script, press. now rewrite Hb. Qed.

End Facts.

(** ** Concrete runs on the sample engine *)

Lemma paris_renders_reading :
  output (dom (snd (chain (Normal Sample.found) (Sample.world_with "Paris" "old"))))
  = Some (LF ++ indent16 ++ "<h2>Weather in Paris, France</h2>"
            ++ LF ++ indent16 ++ "<p>Temperature: 18 " ++ degree ++ "C</p>"
            ++ LF ++ indent16 ++ "<p>Description: Clear</p>"
            ++ LF ++ indent12).
Proof.
  apply (success_path_renders_reading
           (Sample.world_with "Paris" "old") (mkElement "" "old") Sample.found
           Sample.paris Sample.paris_location Sample.paris_current Sample.clear
           "Paris" "France" "Clear" 18%Z); reflexivity.
Defined.

Lemma unknown_city_renders_city_not_found :
  output (dom (snd (chain (Normal Sample.bad_request)
                      (Sample.world_with "Zzzzzz" "old"))))
  = Some ("<p style=" ++ dquote ++ "color: red;" ++ dquote ++ ">City not found</p>").
Proof.
  apply (status_failure_renders_city_not_found
           (Sample.world_with "Zzzzzz" "old") (mkElement "" "old") Sample.bad_request);
    reflexivity.
Defined.

Lemma refused_connection_renders_its_message :
  output (dom (snd (chain (E := Sample.engine) (Throw Sample.refused)
                      (Sample.world_with "Paris" "old"))))
  = Some ("<p style=" ++ dquote ++ "color: red;" ++ dquote ++ ">Failed to fetch</p>").
Proof.
  apply (transport_or_parsing_failure_renders_message
           (Sample.world_with "Paris" "old") (mkElement "" "old")
           (Throw Sample.refused) Sample.refused);
    [reflexivity | left; reflexivity].
Defined.

Lemma paris_request :
  getWeather_click (E := Sample.engine) (Sample.world_with "Paris" "")
  = (Normal Undefined,
     {| dom := Sample.page_with "Paris" "";
        log := [Fetch {| req_method := "GET";
                         req_url := "https://api.weatherapi.com/v1/current.json?key=141623457ed8473b88b145446242110&q=Paris&aqi=no";
                         req_headers := [];
                         req_body := None |}] |}).
Proof.
  apply (request_is_plain_get (Sample.world_with "Paris" "") (mkElement "Paris" ""));
    reflexivity.
Defined.

Lemma two_quick_clicks_show_one_result :
  exists p',
    run_page {| page_world := Sample.world_with "Paris" "old"; in_flight := 0 |}
      [Click; Edit "Zzzzzz"; Click;
       Settle (Normal Sample.found); Settle (Normal Sample.bad_request)]
    = Some p' /\
    output (dom (page_world p')) = Some (error_fragment "City not found") /\
    count_writes (log (page_world p')) = 2.
Proof.
  eexists. split; [reflexivity|].
  refine (let H := one_fragment_replaces_previous
                     {| page_world := Sample.world_with "Paris" "old"; in_flight := 0 |} _
                     [Click; Edit "Zzzzzz"; Click;
                      Settle (Normal Sample.found); Settle (Normal Sample.bad_request)]
                     (mkElement "" "old") eq_refl eq_refl
          in conj (proj1 H) (proj1 (proj2 H))).
Defined.

Lemma blank_query_goes_through :
  exists rq,
    log (snd (getWeather_click (E := Sample.engine) (Sample.world_with "  " "")))
    = [Fetch rq] /\
    req_url rq
    = "https://api.weatherapi.com/v1/current.json?key=141623457ed8473b88b145446242110&q=  &aqi=no".
Proof.
  exact (proj1 (query_is_field_value_verbatim
                  (Sample.world_with "  " "") (mkElement "  " "") eq_refl)).
Defined.

Lemma bad_request_is_caught :
  fst (getWeather_click (E := Sample.engine) (Sample.world_with "Zzzzzz" "old"))
  = Normal Undefined
  /\ count_fetch (log (snd (getWeather_click (E := Sample.engine)
                              (Sample.world_with "Zzzzzz" "old")))) = 1
  /\ fst (chain (Normal Sample.bad_request) (Sample.world_with "Zzzzzz" "old"))
     = Normal Undefined
  /\ output (dom (snd (chain (Normal Sample.bad_request)
                         (Sample.world_with "Zzzzzz" "old"))))
     = Some (error_fragment "City not found")
  /\ count_fetch (log (snd (chain (Normal Sample.bad_request)
                              (Sample.world_with "Zzzzzz" "old")))) = 0
  /\ count_writes (log (snd (chain (Normal Sample.bad_request)
                               (Sample.world_with "Zzzzzz" "old")))) = 1.
Proof.
  apply (failures_caught_not_rethrown_not_retried
           (Sample.world_with "Zzzzzz" "old") (Sample.world_with "Zzzzzz" "old")
           (mkElement "Zzzzzz" "") (mkElement "" "old")
           (Normal Sample.bad_request) (Error "City not found"));
    [reflexivity | reflexivity | apply status_failure; reflexivity].
Defined.

Lemma paris_settlement_is_one_assignment :
  dom (snd (chain (Normal Sample.found) (Sample.world_with "Paris" "old")))
  = assign_innerHTML (Sample.page_with "Paris" "old") "weatherResult"
      (fragment_of (Normal Sample.found))
  /\ count_writes (log (snd (chain (Normal Sample.found)
                               (Sample.world_with "Paris" "old")))) = 1.
Proof.
  refine (let H := only_output_element_changes
                     (Sample.world_with "Paris" "old") (Sample.world_with "Paris" "old")
                     (mkElement "Paris" "") (mkElement "" "old") (Normal Sample.found)
                     eq_refl eq_refl
          in conj (proj1 (proj2 (proj2 H)))
                  (proj2 (proj2 (proj2 (proj2 (proj2 H)))))).
Defined.

Lemma missing_current_renders_type_error :
  exists base prop,
    fst (chain (Normal (mkResponse 200 (Normal Sample.no_current)))
           (Sample.world_with "Paris" "old")) = Normal Undefined
    /\ output (dom (snd (chain (Normal (mkResponse 200 (Normal Sample.no_current)))
                           (Sample.world_with "Paris" "old"))))
       = Some (error_fragment (Sample.print_type_error (CannotRead base prop)))
    /\ ~ is_success_fragment
           (fragment_of (Normal (mkResponse 200 (Normal Sample.no_current))))
    /\ count_writes (log (snd (chain (Normal (mkResponse 200 (Normal Sample.no_current)))
                                 (Sample.world_with "Paris" "old")))) = 1.
Proof.
  apply (missing_object_renders_type_error
           (Sample.world_with "Paris" "old") (mkElement "" "old")
           (mkResponse 200 (Normal Sample.no_current)) Sample.no_current);
    [reflexivity | reflexivity | reflexivity | left; reflexivity].
Defined.

(** C9, as stated, fails: a body that parses and lacks [current.temp_c]
    throws nothing, and the output element receives a success fragment
    with the text "undefined" in place of the temperature, not an error
    fragment. *)
Lemma missing_temperature_renders_success_fragment :
  ok (mkResponse 200 (Normal Sample.no_temperature)) = true
  /\ body_json (mkResponse 200 (Normal Sample.no_temperature))
     = Normal Sample.no_temperature
  /\ own Sample.no_temperature "current" = Some (JObj [("condition", Sample.clear)])
  /\ own (JObj [("condition", Sample.clear)]) "temp_c" = None
  /\ chain (Normal (mkResponse 200 (Normal Sample.no_temperature)))
       (Sample.world_with "Paris" "old")
     = (Normal Undefined,
        {| dom := Sample.page_with "Paris"
                    (success_fragment "Paris" "France" "undefined" "Clear");
           log := [ReadJson;
                   SetInnerHTML "weatherResult"
                     (success_fragment "Paris" "France" "undefined" "Clear")] |})
  /\ ~ is_error_fragment (success_fragment "Paris" "France" "undefined" "Clear").
Proof.
  repeat split.
  intros [m H]. now apply success_is_not_error in H.
Qed.

(** ** Concrete runs for the results beyond the claims *)

Lemma page_without_field_never_fetches :
  exists p',
    run_page {| page_world := {| dom := Sample.page_without_field; log := [] |};
                in_flight := 1 |}
      [Click; Edit "Paris"; Click; Settle (Normal Sample.found)] = Some p'
    /\ fetched (log (page_world p')) = []
    /\ in_flight p' + 1 = 1.
Proof.
  eexists. split; [reflexivity|].
  exact (proj2 (click_without_field_never_fetches
                  {| page_world := {| dom := Sample.page_without_field; log := [] |};
                     in_flight := 1 |} _
                  [Click; Edit "Paris"; Click; Settle (Normal Sample.found)]
                  eq_refl eq_refl)).
Defined.

Lemma page_without_output_rejects :
  fst (chain (Normal Sample.found)
         {| dom := Sample.page_without_output; log := [] |})
  = Throw (mkError "TypeError" "Cannot set properties of null (setting 'innerHTML')").
Proof.
  exact (proj1 (chain_without_output_is_rejected
                  {| dom := Sample.page_without_output; log := [] |}
                  (Normal Sample.found) eq_refl)).
Defined.

Lemma missing_temperature_reads_undefined :
  chain (Normal (mkResponse 200 (Normal Sample.no_temperature)))
    (Sample.world_with "Paris" "old")
  = (Normal Undefined,
     {| dom := Sample.page_with "Paris"
                 (success_fragment "Paris" "France" "undefined" "Clear");
        log := [ReadJson;
                SetInnerHTML "weatherResult"
                  (success_fragment "Paris" "France" "undefined" "Clear")] |}).
Proof.
  refine (proj1 (absent_leaf_renders_undefined
                   (Sample.world_with "Paris" "old") (mkElement "" "old")
                   (mkResponse 200 (Normal Sample.no_temperature))
                   Sample.no_temperature Sample.paris_location
                   (JObj [("condition", Sample.clear)]) Sample.clear
                   "Paris" "France" "undefined" "Clear"
                   eq_refl eq_refl eq_refl eq_refl _ eq_refl eq_refl _
                   eq_refl eq_refl eq_refl eq_refl)); discriminate.
Defined.

Lemma null_current_reports_condition :
  output (dom (snd (chain (Normal (mkResponse 200 (Normal Sample.null_current)))
                      (Sample.world_with "Paris" "old"))))
  = Some ("<p style=" ++ dquote ++ "color: red;" ++ dquote
            ++ ">Cannot read properties of null (reading 'condition')</p>").
Proof.
  rewrite (first_unreadable_object_decides_message
             (Sample.world_with "Paris" "old") (mkElement "" "old")
             (mkResponse 200 (Normal Sample.null_current)) Sample.null_current
             IsNull "condition" eq_refl eq_refl eq_refl
             (unreadable_null_current Sample.null_current eq_refl)).
  reflexivity.
Defined.

Lemma paris_result_is_a_success_fragment :
  output (dom (snd (chain (Normal Sample.found) (Sample.world_with "Paris" "old"))))
  = Some (fragment_of (Normal Sample.found)).
Proof.
  exact (proj1 (rendered_text_is_one_of_five
                  (Sample.world_with "Paris" "old") (mkElement "" "old")
                  (Normal Sample.found) eq_refl)).
Defined.

Lemma two_clicks_two_requests :
  exists p',
    run_page {| page_world := Sample.world_with "Paris" "old"; in_flight := 0 |}
      [Click; Edit "Zzzzzz"; Click;
       Settle (Normal Sample.bad_request); Settle (Throw Sample.refused)] = Some p'
    /\ count_fetch (log (page_world p')) = 2
    /\ in_flight p' + 2 = 2.
Proof.
  eexists. split; [reflexivity|].
  exact (one_fetch_per_click_over_runs
           {| page_world := Sample.world_with "Paris" "old"; in_flight := 0 |} _
           [Click; Edit "Zzzzzz"; Click;
            Settle (Normal Sample.bad_request); Settle (Throw Sample.refused)]
           (mkElement "Paris" "") eq_refl eq_refl).
Defined.

Lemma two_clicks_go_to_the_weather_endpoint :
  exists p',
    run_page {| page_world := Sample.world_with "Paris" "old"; in_flight := 0 |}
      [Click; Edit "Zzzzzz"; Click; Settle (Normal Sample.bad_request)] = Some p'
    /\ exists new,
         fetched (log (page_world p')) = new /\
         Forall (fun rq =>
                   req_method rq = "GET" /\ req_headers rq = [] /\
                   req_body rq = None /\
                   exists q,
                     req_url rq
                     = "https://api.weatherapi.com/v1/current.json?key=141623457ed8473b88b145446242110&q="
                         ++ q ++ "&aqi=no") new.
Proof.
  eexists. split; [reflexivity|].
  exact (every_request_goes_to_the_weather_endpoint
           {| page_world := Sample.world_with "Paris" "old"; in_flight := 0 |} _
           [Click; Edit "Zzzzzz"; Click; Settle (Normal Sample.bad_request)]
           eq_refl).
Defined.

Lemma paris_answer_shown_for_zzzzzz :
  exists p1 p2,
    run_tracked (E := Sample.engine)
      {| tracked_world := Sample.world_with "" "old"; pending := [] |}
      [TEdit "Paris"; TClick; TEdit "Zzzzzz"; TClick] = Some p1
    /\ pending p1 = [request_of (build_url "Paris") None;
                     request_of (build_url "Zzzzzz") None]
    /\ run_tracked p1 [TSettle 1 (Normal Sample.bad_request);
                       TSettle 0 (Normal Sample.found)] = Some p2
    /\ pending p2 = []
    /\ option_map value (getElementById (dom (tracked_world p2)) "city")
       = Some "Zzzzzz"
    /\ output (dom (tracked_world p2)) = Some (fragment_of (Normal Sample.found)).
Proof.
  exact (stale_response_overwrites_newer
           (Sample.world_with "" "old") (mkElement "" "") (mkElement "" "old")
           "Paris" "Zzzzzz" (Normal Sample.found) (Normal Sample.bad_request)
           eq_refl eq_refl).
Defined.

Lemma script_loaded_twice_fetches_twice :
  exists s',
    press (E := Sample.engine)
      {| session_page := {| page_world := Sample.world_with "Paris" "old";
                            in_flight := 0 |};
         listeners := 2 |} = Some s'
    /\ listeners s' = 2
    /\ dom (page_world (session_page s')) = Sample.page_with "Paris" "old"
    /\ fetched (log (page_world (session_page s')))
       = [request_of (build_url "Paris") None; request_of (build_url "Paris") None]
    /\ in_flight (session_page s') = 2.
Proof.
  exact (proj2 (press_fetches_once_per_listener (E := Sample.engine)
                  {| session_page := {| page_world := Sample.world_with "Paris" "old";
                                        in_flight := 0 |};
                     listeners := 2 |}
                  (mkElement "" "") (mkElement "Paris" "") eq_refl eq_refl)).
Defined.

Lemma markup_message_reaches_the_output :
  exists e : js_error,
    message e = "<img src=x onerror=alert(1)>" /\
    output (dom (snd (chain (E := Sample.engine) (Throw e)
                        (Sample.world_with "Paris" "old"))))
    = Some ("<p style=" ++ dquote ++ "color: red;" ++ dquote ++ ">"
              ++ "<img src=x onerror=alert(1)>" ++ "</p>").
Proof.
  exact (proj1 (proj2 (markup_is_interpolated_unescaped (E := Sample.engine)
                         (Sample.world_with "Paris" "old") (mkElement "" "old")
                         eq_refl))).
Defined.

